(** * custommetrics: a Traefik plugin that counts HTTP exchanges by header values

    A shallow embedding of the label-keyed variant of the plugin
    (the [Metric] / [MetricsStore] / [CustomMetrics] types and the functions
    [New], [getNumericValueFromHeaders], [createMetricKey], [collectMetrics]
    and [renderPrometheusFormat]), together with the two earlier variants of
    [New] and [collectMetrics] that the repository also carries: the
    single-series store ([Module SingleSeries]) and the Prometheus-client
    one ([Module PromClient]).

    Modelling choices.
    - Go's [map[string]T] is a [gmap string T].  A Go [range] over a map
      visits every entry once, in an order the language leaves unspecified
      and that differs from one loop to the next; every function whose body
      ranges over a map takes the visiting order as an extra argument
      ([ord]), and [range_order m ord] says that [ord] is such an order.
    - [float64] is Rocq's primitive binary64 [float].
    - The store maps a key to a [*Metric].  Each pointer is allocated by
      [collectMetrics] for one key and is stored nowhere else, so the store
      is a [gmap string Metric] and an update through the pointer is an
      [alter] at its key.
    - The mutex only serialises the calls; a run of the plugin is a sequence
      of [collectMetrics] calls on the store.
    - Library code ([textproto.CanonicalMIMEHeaderKey], [strconv.ParseFloat],
      the [%.0f] verb, [net.Listen]) is a parameter. *)

From Stdlib Require Import PrimFloat Uint63 SpecFloat FloatOps Ascii String.
From stdpp Require Import gmap strings pretty list fin_maps.

Local Open Scope string_scope.

(** ** The Go runtime the plugin calls into *)

Class GoRuntime := {
  (** [textproto.CanonicalMIMEHeaderKey] *)
  CanonicalMIMEHeaderKey : string → string;
  (** [strconv.ParseFloat(s, 64)]: [Some v] when [err == nil] *)
  ParseFloat : string → option float;
  (** [fmt.Sprintf("%.0f", v)] *)
  FormatFloat0 : float → string;
}.

(** ** Ranging over a Go map *)

Definition range_order {V} (m : gmap string V) (ord : list string) : Prop :=
  ord ≡ₚ (map_to_list m).*1.

(** ** Data model *)

(** Metric type constants. *)
Definition MetricTypeCounter : string := "counter".
Definition MetricTypeHistogram : string := "histogram".
Definition MetricTypeGauge : string := "gauge".

Record Config := {
  MetricHeaders : list string;
  MetricName : string;
  MetricType : string;
  MetricsPort : Z;
}.

Definition CreateConfig : Config :=
  {| MetricHeaders := [];
     MetricName := "plugin_custom_requests";
     MetricType := MetricTypeCounter;
     MetricsPort := 8081 |}.

Record Metric := {
  Name : string;
  Type_ : string;
  Value : float;
  Labels : gmap string string;
}.

(** The fields of [CustomMetrics] that the metrics engine reads; the store
    is threaded through the calls. *)
Record CustomMetrics := {
  metricHeaders : list string;
  metricName : string;
  metricType : string;
  metricsPort : Z;
  name : string;
}.

(** [http.Header] is [map[string][]string]. *)
Abbreviation Header := (gmap string (list string)).
Abbreviation MetricsStore := (gmap string Metric).

Definition set_Value (v : float) (m : Metric) : Metric :=
  {| Name := Name m; Type_ := Type_ m; Value := v; Labels := Labels m |}.

Definition set_Type (t : string) (m : Metric) : Metric :=
  {| Name := Name m; Type_ := t; Value := Value m; Labels := Labels m |}.

Section Engine.
Context `{GoRuntime}.

(** [http.Header.Get]: the first value stored under the canonical form of the
    key, or the empty string. *)
Definition Get (h : Header) (key : string) : string :=
  match h !! CanonicalMIMEHeaderKey key with
  | Some (v :: _) => v
  | _ => ""
  end.

(** One of the two loops of [getNumericValueFromHeaders]: the first
    configured header whose value in [h] is not empty and parses. *)
Fixpoint scanHeaders (h : Header) (names : list string) : option float :=
  match names with
  | [] => None
  | headerName :: rest =>
      let headerValue := Get h headerName in
      if decide (headerValue = "") then scanHeaders h rest
      else match ParseFloat headerValue with
           | Some parsedValue => Some parsedValue
           | None => scanHeaders h rest
           end
  end.

Definition getNumericValueFromHeaders
    (c : CustomMetrics) (req responseHeaders : Header) : float :=
  match scanHeaders req (metricHeaders c) with
  | Some parsedValue => parsedValue
  | None =>
      match scanHeaders responseHeaders (metricHeaders c) with
      | Some parsedValue => parsedValue
      | None => 1%float
      end
  end.

(** [fmt.Sprintf("_%s_%s", k, v)] *)
Definition keySegment (k v : string) : string := "_" +:+ k +:+ "_" +:+ v.

(** [createMetricKey]: [ord] is the order in which the [range] visits
    [labels]. *)
Definition createMetricKey
    (ord : list string) (metricName : string) (labels : gmap string string)
    : string :=
  foldl (λ key k, key +:+ keySegment k (labels !!! k)) metricName ord.

(** The first loop of [collectMetrics]: the label of a configured header is
    its request value, else its response value, else the empty string. *)
Definition headerLabel (req responseHeaders : Header) (headerName : string)
    : string :=
  let value := Get req headerName in
  if decide (value = "") then
    let value := Get responseHeaders headerName in
    if decide (value = "") then "" else value
  else value.

Definition collectLabels (c : CustomMetrics) (req responseHeaders : Header)
    : gmap string string :=
  foldl (λ labels headerName,
           <[headerName := headerLabel req responseHeaders headerName]> labels)
        ∅ (metricHeaders c).

Definition newMetric (c : CustomMetrics) (labels : gmap string string)
    : Metric :=
  {| Name := metricName c; Type_ := metricType c; Value := 0%float;
     Labels := labels |}.

(** The [switch] that ends [collectMetrics], on the metric it updates. *)
Definition updateValue
    (c : CustomMetrics) (req responseHeaders : Header) (metric : Metric)
    : Metric :=
  if decide (metricType c = MetricTypeCounter) then
    set_Value (Value metric + 1)%float metric
  else if decide (metricType c = MetricTypeHistogram
                  ∨ metricType c = MetricTypeGauge) then
    set_Value (getNumericValueFromHeaders c req responseHeaders) metric
  else metric.

(** The key [collectMetrics] files the exchange under. *)
Definition metricKeyOf
    (c : CustomMetrics) (ord : list string) (req responseHeaders : Header)
    : string :=
  let labels := collectLabels c req responseHeaders in
  if decide (0 < size labels) then createMetricKey ord (metricName c) labels
  else metricName c.

Definition collectMetrics
    (c : CustomMetrics) (ord : list string) (req responseHeaders : Header)
    (store : MetricsStore) : MetricsStore :=
  let labels := collectLabels c req responseHeaders in
  let metricKey := metricKeyOf c ord req responseHeaders in
  (* get or create the metric with these labels *)
  let store :=
    match store !! metricKey with
    | Some _ => store
    | None => <[metricKey := newMetric c labels]> store
    end in
  (* update the value through the pointer stored at [metricKey] *)
  if decide (metricType c = MetricTypeCounter) then
    alter (λ metric, set_Value (Value metric + 1)%float metric) metricKey store
  else if decide (metricType c = MetricTypeHistogram
                  ∨ metricType c = MetricTypeGauge) then
    alter (set_Value (getNumericValueFromHeaders c req responseHeaders))
          metricKey store
  else store.

End Engine.

(** ** Rendering *)

Definition dquote : string := String "034"%char "".
Definition newline : string := String "010"%char "".

(** [strings.Join] *)
Fixpoint Join (elems : list string) (sep : string) : string :=
  match elems with
  | [] => ""
  | [e] => e
  | e :: rest => e +:+ sep +:+ Join rest sep
  end.

(** [fmt.Sprintf("%s=\"%s\"", k, v)] *)
Definition labelPair (k v : string) : string :=
  k +:+ "=" +:+ dquote +:+ v +:+ dquote.

(** The slice [labelPairs] that the inner loop of [renderPrometheusFormat]
    builds when it visits [Labels metric] in the order [lord]. *)
Definition labelPairs (lord : list string) (metric : Metric) : list string :=
  (λ k, labelPair k (Labels metric !!! k)) <$> lord.

Definition metricLine (lord : list string) (metric : Metric) : string :=
  if decide (0 < size (Labels metric)) then
    Name metric +:+ "{" +:+ Join (labelPairs lord metric) "," +:+ "}"
  else Name metric.

(** The three [Sprintf] calls that append to [output], by the line they
    write. *)
Inductive Line :=
| HelpLine (metric_name : string)
| TypeLine (metric_name kind : string)
| DataLine (series : string) (value : float).

(** The loop of [renderPrometheusFormat]: [sord] is the order in which the
    [range] visits the store and [lord k] the order in which the inner
    [range] visits the labels of the metric stored at [k]. *)
Fixpoint renderLoop
    (lord : string → list string) (store : MetricsStore)
    (helpAdded : bool) (sord : list string) : list Line :=
  match sord with
  | [] => []
  | k :: rest =>
      match store !! k with
      | None => renderLoop lord store helpAdded rest
      | Some metric =>
          (if helpAdded then []
           else [HelpLine (Name metric);
                 TypeLine (Name metric) (Type_ metric)])
          ++ DataLine (metricLine (lord k) metric) (Value metric)
          :: renderLoop lord store true rest
      end
  end.

Definition renderLines
    (sord : list string) (lord : string → list string) (store : MetricsStore)
    : list Line :=
  renderLoop lord store false sord.

(** The orders a rendering of [store] can follow. *)
Definition render_order
    (store : MetricsStore) (sord : list string) (lord : string → list string)
    : Prop :=
  range_order store sord ∧
  ∀ k metric, store !! k = Some metric → range_order (Labels metric) (lord k).

Section Text.
Context `{GoRuntime}.

Definition showLine (l : Line) : string :=
  match l with
  | HelpLine n =>
      "# HELP " +:+ n +:+ " Custom metric based on HTTP headers" +:+ newline
  | TypeLine n t => "# TYPE " +:+ n +:+ " " +:+ t +:+ newline
  | DataLine series v => series +:+ " " +:+ FormatFloat0 v +:+ newline
  end.

Definition renderPrometheusFormat
    (sord : list string) (lord : string → list string) (store : MetricsStore)
    : string :=
  foldl (λ output l, output +:+ showLine l) "" (renderLines sord lord store).

End Text.

(** ** Construction *)

Inductive error :=
| ErrEmptyHeaders                    (* metricHeaders cannot be empty *)
| ErrUnsupportedType (t : string)    (* unsupported metric type: %s *)
| ErrPortInUse (port : Z)            (* port %d is already in use: %w *)
| ErrInitializeMetrics (e : error)   (* failed to initialize metrics: %w *)
| ErrStartServer (e : error).        (* failed to start metrics server: %w *)

Definition pluginOf (config : Config) (name : string) : CustomMetrics :=
  {| metricHeaders := MetricHeaders config;
     metricName := MetricName config;
     metricType := MetricType config;
     metricsPort := MetricsPort config;
     name := name |}.

(** [startMetricsServer]: [listen port] tells whether [net.Listen] binds the
    port; [None] is Go's [nil] error. *)
Definition startMetricsServer (listen : Z → bool) (c : CustomMetrics)
    : option error :=
  if listen (metricsPort c) then None else Some (ErrPortInUse (metricsPort c)).

(** [New] returns either the error or the plugin with its (empty) store. *)
Definition New (listen : Z → bool) (config : Config) (name : string)
    : error + CustomMetrics * MetricsStore :=
  if decide (length (MetricHeaders config) = 0) then inl ErrEmptyHeaders
  else
    let plugin := pluginOf config name in
    match startMetricsServer listen plugin with
    | Some err => inl (ErrStartServer err)
    | None => inr (plugin, ∅)
    end.

(** ** Runs of the plugin *)

(** One HTTP exchange as [collectMetrics] sees it: the request headers, the
    response headers written downstream, and the order in which this call's
    [range] visits the label map. *)
Record Exchange := {
  xreq : Header;
  xresp : Header;
  xord : list string;
}.

Section Runs.
Context `{GoRuntime}.

Definition observe (c : CustomMetrics) (store : MetricsStore) (x : Exchange)
    : MetricsStore :=
  collectMetrics c (xord x) (xreq x) (xresp x) store.

Definition run (c : CustomMetrics) (xs : list Exchange) (store : MetricsStore)
    : MetricsStore :=
  foldl (observe c) store xs.

Definition exchange_ok (c : CustomMetrics) (x : Exchange) : Prop :=
  range_order (collectLabels c (xreq x) (xresp x)) (xord x).

(** The stores a plugin built by [New] can hold. *)
Inductive reachable (c : CustomMetrics) : MetricsStore → Prop :=
| reachable_New : reachable c ∅
| reachable_collect store x :
    reachable c store → exchange_ok c x → reachable c (observe c store x).

End Runs.

(** ** The single-series variant

    The variant of the plugin in which the store holds one metric, filed under
    the metric name by [New], with no labels; [collectMetrics] sees the
    request only. *)
Module SingleSeries.
Section SingleSeries.
Context `{GoRuntime}.

Definition New (listen : Z → bool) (config : Config) (name : string)
    : error + CustomMetrics * MetricsStore :=
  if decide (length (MetricHeaders config) = 0) then inl ErrEmptyHeaders
  else
    let plugin := pluginOf config name in
    let store : MetricsStore :=
      {[ MetricName config :=
           {| Name := MetricName config; Type_ := MetricType config;
              Value := 0%float; Labels := ∅ |} ]} in
    match startMetricsServer listen plugin with
    | Some err => inl (ErrStartServer err)
    | None => inr (plugin, store)
    end.

(** The counter loop: is some configured header set on the request? *)
Fixpoint anyHeader (req : Header) (names : list string) : bool :=
  match names with
  | [] => false
  | headerName :: rest =>
      if decide (Get req headerName = "") then anyHeader req rest else true
  end.

Definition collectMetrics
    (c : CustomMetrics) (req : Header) (store : MetricsStore) : MetricsStore :=
  if decide (length (metricHeaders c) = 0) then store
  else
    match store !! metricName c with
    | None => store
    | Some _ =>
        if decide (metricType c = MetricTypeCounter) then
          (* fast path for counters: increment once if any header exists *)
          if anyHeader req (metricHeaders c) then
            alter (λ metric, set_Value (Value metric + 1)%float metric)
                  (metricName c) store
          else store
        else
          let value :=
            match scanHeaders req (metricHeaders c) with
            | Some parsedValue => parsedValue
            | None => 1%float
            end in
          if decide (metricType c = MetricTypeHistogram
                     ∨ metricType c = MetricTypeGauge) then
            alter (set_Value value) (metricName c) store
          else store
    end.

End SingleSeries.
End SingleSeries.

(** ** The Prometheus-client variant

    The variant that registers a counter, histogram or gauge of the Prometheus
    client library.  Only construction is modelled: [initializeMetrics] is the
    one place of the repository that looks at the metric kind before the
    first request; the client's constructors and [MustRegister] are taken to
    return. *)
Module PromClient.

Definition initializeMetrics (c : CustomMetrics) : option error :=
  if decide (metricType c = "counter") then None
  else if decide (metricType c = "histogram") then None
  else if decide (metricType c = "gauge") then None
  else Some (ErrUnsupportedType (metricType c)).

Definition New (listen : Z → bool) (config : Config) (name : string)
    : error + CustomMetrics :=
  if decide (length (MetricHeaders config) = 0) then inl ErrEmptyHeaders
  else
    let plugin := pluginOf config name in
    match initializeMetrics plugin with
    | Some err => inl (ErrInitializeMetrics err)
    | None =>
        match startMetricsServer listen plugin with
        | Some err => inl (ErrStartServer err)
        | None => inr plugin
        end
    end.

End PromClient.

(** ** A runtime to evaluate the plugin on

    [CanonicalMIMEHeaderKey] follows net/textproto (without its table of
    common headers, which only saves allocations).  [ParseFloat] is the
    fragment of strconv.ParseFloat on unsigned decimal integers of at most 18
    digits, every other string being answered with the error; [%.0f] rounds
    a finite value to the nearest integer, ties to even. *)
Module Example.

Definition isLower (a : ascii) : bool :=
  ((97 <=? nat_of_ascii a) && (nat_of_ascii a <=? 122))%nat.
Definition isUpper (a : ascii) : bool :=
  ((65 <=? nat_of_ascii a) && (nat_of_ascii a <=? 90))%nat.
Definition isDigit (a : ascii) : bool :=
  ((48 <=? nat_of_ascii a) && (nat_of_ascii a <=? 57))%nat.

(** [validHeaderFieldByte]: the token characters of RFC 7230. *)
Definition validHeaderFieldByte (a : ascii) : bool :=
  isLower a || isUpper a || isDigit a
  || bool_decide (a ∈ list_ascii_of_string "!#$%&'*+-.^_`|~").

Fixpoint allValid (s : string) : bool :=
  match s with
  | EmptyString => true
  | String a rest => validHeaderFieldByte a && allValid rest
  end.

Fixpoint canonicalLoop (upper : bool) (s : string) : string :=
  match s with
  | EmptyString => EmptyString
  | String a rest =>
      let a' :=
        if upper && isLower a then ascii_of_nat (nat_of_ascii a - 32)
        else if negb upper && isUpper a then ascii_of_nat (nat_of_ascii a + 32)
        else a in
      String a' (canonicalLoop (bool_decide (a' = "-"%char)) rest)
  end.

Definition canonicalMIMEHeaderKey (s : string) : string :=
  if allValid s then canonicalLoop true s else s.

Fixpoint digitsLoop (acc : Z) (s : string) : option Z :=
  match s with
  | EmptyString => Some acc
  | String a rest =>
      if isDigit a
      then digitsLoop (10 * acc + Z.of_nat (nat_of_ascii a - 48)) rest
      else None
  end.

Definition parseFloat (s : string) : option float :=
  if bool_decide (s = "") || negb (String.length s <=? 18)%nat then None
  else (λ z, PrimFloat.of_uint63 (Uint63.of_Z z)) <$> digitsLoop 0 s.

Definition roundHalfEven (m : positive) (e : Z) : Z :=
  if (0 <=? e)%Z then Z.pos m * 2 ^ e
  else
    let d := (2 ^ (- e))%Z in
    let q := (Z.pos m / d)%Z in
    let r := (Z.pos m mod d)%Z in
    if (2 * r <? d)%Z then q
    else if (d <? 2 * r)%Z then (q + 1)%Z
    else if Z.even q then q else (q + 1)%Z.

Definition formatFloat0 (v : float) : string :=
  match Prim2SF v with
  | S754_zero s => if s then "-0" else "0"
  | S754_infinity s => if s then "-Inf" else "+Inf"
  | S754_nan => "NaN"
  | S754_finite s m e =>
      (if s then "-" else "") +:+ pretty (roundHalfEven m e)
  end.

#[export] Instance runtime : GoRuntime :=
  {| CanonicalMIMEHeaderKey := canonicalMIMEHeaderKey;
     ParseFloat := parseFloat;
     FormatFloat0 := formatFloat0 |}.

End Example.

(** ** The response writer and [ServeHTTP] *)

(** What an [http.ResponseWriter] is asked to do through [WriteHeader] and
    [Write]. *)
Inductive WriterCall :=
| CallWriteHeader (statusCode : Z)
| CallWrite (data : string).

(** The writer the host hands to [ServeHTTP], by what can be seen of it: its
    header map and the calls it has received, oldest first. *)
Record Recorder := {
  recHeader : Header;
  recCalls : list WriterCall;
}.

Definition recordCall (rec : Recorder) (call : WriterCall) : Recorder :=
  {| recHeader := recHeader rec; recCalls := (recCalls rec ++ [call])%list |}.

Definition StatusOK : Z := 200.

(** [responseWriter] wraps the host's writer; [Header()] is the promoted
    method of the embedded writer. *)
Record responseWriter := {
  ResponseWriter : Recorder;
  headerWritten : bool;
}.

Definition WriteHeader (rw : responseWriter) (statusCode : Z)
    : responseWriter :=
  if headerWritten rw then rw
  else {| ResponseWriter :=
            recordCall (ResponseWriter rw) (CallWriteHeader statusCode);
          headerWritten := true |}.

(** [Write]; its results are those of the embedded writer's [Write] and are
    not modelled. *)
Definition Write (rw : responseWriter) (data : string) : responseWriter :=
  let rw := if headerWritten rw then rw else WriteHeader rw StatusOK in
  {| ResponseWriter := recordCall (ResponseWriter rw) (CallWrite data);
     headerWritten := headerWritten rw |}.

(** The calls a downstream handler makes on the writer it is given. *)
Inductive WriterOp :=
| OpSet (key value : string)        (* rw.Header().Set(key, value) *)
| OpAdd (key value : string)        (* rw.Header().Add(key, value) *)
| OpDel (key : string)              (* rw.Header().Del(key) *)
| OpWriteHeader (statusCode : Z)    (* rw.WriteHeader(statusCode) *)
| OpWrite (data : string).          (* rw.Write(data) *)

Section Serve.
Context `{GoRuntime}.

(** [http.Header.Set], [Add] and [Del]. *)
Definition HeaderSet (h : Header) (key value : string) : Header :=
  <[CanonicalMIMEHeaderKey key := [value]]> h.
Definition HeaderAdd (h : Header) (key value : string) : Header :=
  <[CanonicalMIMEHeaderKey key :=
      (default [] (h !! CanonicalMIMEHeaderKey key) ++ [value])%list]> h.
Definition HeaderDel (h : Header) (key : string) : Header :=
  delete (CanonicalMIMEHeaderKey key) h.

Definition withHeader (rw : responseWriter) (h : Header) : responseWriter :=
  {| ResponseWriter :=
       {| recHeader := h; recCalls := recCalls (ResponseWriter rw) |};
     headerWritten := headerWritten rw |}.

Definition applyOp (rw : responseWriter) (op : WriterOp) : responseWriter :=
  match op with
  | OpSet key value =>
      withHeader rw (HeaderSet (recHeader (ResponseWriter rw)) key value)
  | OpAdd key value =>
      withHeader rw (HeaderAdd (recHeader (ResponseWriter rw)) key value)
  | OpDel key =>
      withHeader rw (HeaderDel (recHeader (ResponseWriter rw)) key)
  | OpWriteHeader statusCode => WriteHeader rw statusCode
  | OpWrite data => Write rw data
  end.

(** [ServeHTTP]: [next] is the downstream handler, as the calls it makes on
    its writer for a request; the result is the host's writer and the
    store. *)
Definition ServeHTTP
    (c : CustomMetrics) (next : Header → list WriterOp) (ord : list string)
    (rw : Recorder) (req : Header) (store : MetricsStore)
    : Recorder * MetricsStore :=
  let wrappedRW := {| ResponseWriter := rw; headerWritten := false |} in
  let wrappedRW := foldl applyOp wrappedRW (next req) in
  (ResponseWriter wrappedRW,
   collectMetrics c ord req (recHeader (ResponseWriter wrappedRW)) store).

End Serve.

(** ** [Stop] and the server goroutine

    [Stop] closes [serverStop], receives from [serverStopped] and then calls
    [server.Close]; the goroutine started by [startMetricsServer] runs
    [server.Serve] and, once that has returned, closes [serverStopped].
    [Serve] returns when the server has been closed, or on an error of the
    listener.  The two run interleaved: a state holds the place each has
    reached, and an event lets one of them take its next step. *)
Inductive StopPc :=
| StopCalled      (* at [close(c.serverStop)] *)
| StopWaiting     (* at [<-c.serverStopped] *)
| StopClosing     (* at [c.server.Close()] *)
| StopReturned.

Inductive ServePc :=
| Serving         (* in [c.server.Serve(listener)] *)
| ServeReturned   (* at the deferred [close(c.serverStopped)] *)
| ServeExited.

Record Lifecycle := {
  stopPc : StopPc;
  servePc : ServePc;
  serverStopClosed : bool;
  serverStoppedClosed : bool;
  serverClosed : bool;
}.

Inductive LifecycleEvent :=
| EvStop          (* [Stop] takes its next step *)
| EvServe         (* the goroutine takes its next step *)
| EvListenerError (* [Serve] returns on an error of the listener *).

(** The state [New] leaves behind, with [Stop] just called. *)
Definition lifecycleStart : Lifecycle :=
  {| stopPc := StopCalled; servePc := Serving;
     serverStopClosed := false; serverStoppedClosed := false;
     serverClosed := false |}.

(** One step; [None] when the step cannot be taken (the receive or [Serve]
    blocks, or the thread has finished). *)
Definition lifecycleStep (s : Lifecycle) (ev : LifecycleEvent)
    : option Lifecycle :=
  match ev with
  | EvStop =>
      match stopPc s with
      | StopCalled =>
          Some {| stopPc := StopWaiting; servePc := servePc s;
                  serverStopClosed := true;
                  serverStoppedClosed := serverStoppedClosed s;
                  serverClosed := serverClosed s |}
      | StopWaiting =>
          if serverStoppedClosed s then
            Some {| stopPc := StopClosing; servePc := servePc s;
                    serverStopClosed := serverStopClosed s;
                    serverStoppedClosed := serverStoppedClosed s;
                    serverClosed := serverClosed s |}
          else None
      | StopClosing =>
          Some {| stopPc := StopReturned; servePc := servePc s;
                  serverStopClosed := serverStopClosed s;
                  serverStoppedClosed := serverStoppedClosed s;
                  serverClosed := true |}
      | StopReturned => None
      end
  | EvServe =>
      match servePc s with
      | Serving =>
          if serverClosed s then
            Some {| stopPc := stopPc s; servePc := ServeReturned;
                    serverStopClosed := serverStopClosed s;
                    serverStoppedClosed := serverStoppedClosed s;
                    serverClosed := serverClosed s |}
          else None
      | ServeReturned =>
          Some {| stopPc := stopPc s; servePc := ServeExited;
                  serverStopClosed := serverStopClosed s;
                  serverStoppedClosed := true;
                  serverClosed := serverClosed s |}
      | ServeExited => None
      end
  | EvListenerError =>
      match servePc s with
      | Serving =>
          Some {| stopPc := stopPc s; servePc := ServeReturned;
                  serverStopClosed := serverStopClosed s;
                  serverStoppedClosed := serverStoppedClosed s;
                  serverClosed := serverClosed s |}
      | _ => None
      end
  end.

Fixpoint lifecycleRun (s : Lifecycle) (evs : list LifecycleEvent)
    : option Lifecycle :=
  match evs with
  | [] => Some s
  | ev :: evs =>
      match lifecycleStep s ev with
      | Some s' => lifecycleRun s' evs
      | None => None
      end
  end.

(** ** Rendering and runs of the single-series variant *)
Module SingleSeriesRun.
Section SingleSeriesRun.
Context `{GoRuntime}.

(** [renderPrometheusFormat] of the single-series variant: HELP, TYPE and
    value line for every metric the range visits. *)
Fixpoint renderLoop (store : MetricsStore) (sord : list string) : list Line :=
  match sord with
  | [] => []
  | k :: rest =>
      match store !! k with
      | None => renderLoop store rest
      | Some metric =>
          HelpLine (Name metric)
          :: TypeLine (Name metric) (Type_ metric)
          :: DataLine (Name metric) (Value metric)
          :: renderLoop store rest
      end
  end.

Definition renderLines (sord : list string) (store : MetricsStore)
    : list Line :=
  renderLoop store sord.

(** [ServeHTTP] of the variant collects from the request before it calls
    the downstream handler; a run is the sequence of its requests. *)
Definition run (c : CustomMetrics) (reqs : list Header) (store : MetricsStore)
    : MetricsStore :=
  foldl (λ store req, SingleSeries.collectMetrics c req store) store reqs.

(** The value the variant reads from a request under the gauge and
    histogram kinds. *)
Definition requestValue (c : CustomMetrics) (req : Header) : float :=
  match scanHeaders req (metricHeaders c) with
  | Some parsedValue => parsedValue
  | None => 1%float
  end.

End SingleSeriesRun.
End SingleSeriesRun.

(** * The vocabulary of the properties *)

Section Vocabulary.
Context `{GoRuntime}.

(** The key as the specification words it: the metric name followed by one
    segment per configured header, in the configured order. *)
Definition specSeriesKey (c : CustomMetrics) (req resp : Header) : string :=
  metricName c +:+
  String.concat ""
    ((λ h, keySegment h (headerLabel req resp h)) <$> metricHeaders c).

(** The values the numeric scan looks at, in the order it looks at them:
    every configured header on the request, then every configured header on
    the response. *)
Definition numericCandidates (c : CustomMetrics) (req resp : Header)
    : list string :=
  (Get req <$> metricHeaders c) ++ (Get resp <$> metricHeaders c).

(** A header that is not set has no value to parse. *)
Definition parsesAs (v : string) : option float :=
  if decide (v = "") then None else ParseFloat v.

(** The first candidate that parses, or the sentinel 1. *)
Definition firstNumericOr1 (c : CustomMetrics) (req resp : Header) : float :=
  default 1%float (head (omap parsesAs (numericCandidates c req resp))).

(** The kinds of the second case of the [switch] of [collectMetrics]. *)
Definition isGaugeKind (kind : string) : Prop :=
  kind = MetricTypeGauge ∨ kind = MetricTypeHistogram.

(** The lines of a text: what stands between its line feeds, as
    [strings.Split(text, "\n")] gives it. *)
Fixpoint textLines (text : string) : list string :=
  match text with
  | EmptyString => [EmptyString]
  | String a rest =>
      if Ascii.eqb a "010"%char then EmptyString :: textLines rest
      else
        match textLines rest with
        | line :: lines => String a line :: lines
        | [] => [String a EmptyString]
        end
  end.

(** The HELP lines, the TYPE lines and the data lines of an exposition
    text: a data line is a line that is neither empty nor a comment. *)
Definition helpLinesOf (text : string) : list string :=
  filter (λ line, String.prefix "# HELP " line = true) (textLines text).
Definition typeLinesOf (text : string) : list string :=
  filter (λ line, String.prefix "# TYPE " line = true) (textLines text).
Definition dataLinesOf (text : string) : list string :=
  filter (λ line, line ≠ "" ∧ String.prefix "#" line = false)
         (textLines text).

(** The texts of lines, one after the other. *)
Definition joinLines (ls : list string) : string :=
  foldr String.append "" ls.

(** The data line of an entry of the store, and of the series stored at
    [k]. *)
Definition dataLine (lord : string → list string) (e : string * Metric)
    : Line :=
  DataLine (metricLine (lord e.1) e.2) (Value e.2).

Definition dataLineAt
    (lord : string → list string) (store : MetricsStore) (k : string)
    : option Line :=
  (λ metric, dataLine lord (k, metric)) <$> store !! k.

(** The kinds the specification lets a configuration name. *)
Definition supportedKind (kind : string) : Prop :=
  kind = "counter" ∨ kind = "gauge" ∨ kind = "histogram".

(** What every stored metric carries. *)
Definition metric_ok (c : CustomMetrics) (metric : Metric) : Prop :=
  Name metric = metricName c ∧
  Type_ metric = metricType c ∧
  dom (Labels metric) = list_to_set (metricHeaders c).

Definition store_invariant (c : CustomMetrics) (store : MetricsStore) : Prop :=
  ∀ k metric, store !! k = Some metric → metric_ok c metric.

(** The key of [collectMetrics] as a function of the labels, and the
    stores in which every metric is filed under a key of its own labels. *)
Definition keyOfLabels
    (c : CustomMetrics) (ord : list string) (labels : gmap string string)
    : string :=
  if decide (0 < size labels) then createMetricKey ord (metricName c) labels
  else metricName c.

Definition keyed (c : CustomMetrics) (store : MetricsStore) : Prop :=
  ∀ k metric, store !! k = Some metric →
    ∃ ord, range_order (Labels metric) ord ∧
           k = keyOfLabels c ord (Labels metric).

(** No configured header is set on the request or on the response. *)
Definition allAbsent (c : CustomMetrics) (req resp : Header) : Prop :=
  ∀ h, h ∈ metricHeaders c → Get req h = "" ∧ Get resp h = "".

(** Every configured header, mapped to the empty string. *)
Definition emptyLabels (c : CustomMetrics) (labels : gmap string string)
    : Prop :=
  ∀ h, labels !! h = if decide (h ∈ metricHeaders c) then Some "" else None.

(** The plugin [c] configured with another metric kind. *)
Definition withKind (kind : string) (c : CustomMetrics) : CustomMetrics :=
  {| metricHeaders := metricHeaders c;
     metricName := metricName c;
     metricType := kind;
     metricsPort := metricsPort c;
     name := name c |}.

End Vocabulary.

(** * The vocabulary of the further properties *)

Section Vocabulary2.
Context `{GoRuntime}.

(** The key an exchange is filed under, and the exchanges of a run that are
    filed under a key, in the order of the run. *)
Definition keyOfExchange (c : CustomMetrics) (x : Exchange) : string :=
  metricKeyOf c (xord x) (xreq x) (xresp x).

Definition filedUnder (c : CustomMetrics) (k : string) (xs : list Exchange)
    : list Exchange :=
  filter (λ x, keyOfExchange c x = k) xs.

Definition exchangeLabels (c : CustomMetrics) (x : Exchange)
    : gmap string string :=
  collectLabels c (xreq x) (xresp x).

Definition exchangeValue (c : CustomMetrics) (x : Exchange) : float :=
  getNumericValueFromHeaders c (xreq x) (xresp x).

(** [n] increments of a float64. *)
Definition incremented (n : nat) (v : float) : float :=
  Nat.iter n (λ v, v + 1)%float v.

(** The writes a handler makes, and the status its first [WriteHeader] or
    [Write] sends. *)
Definition writesOf (ops : list WriterOp) : list string :=
  omap (λ op, match op with OpWrite data => Some data | _ => None end) ops.

Definition statusOf (ops : list WriterOp) : option Z :=
  head (omap (λ op, match op with
                    | OpWriteHeader statusCode => Some statusCode
                    | OpWrite _ => Some StatusOK
                    | _ => None
                    end) ops).

(** The header map the header calls of a handler leave. *)
Definition headerAfter (h : Header) (ops : list WriterOp) : Header :=
  foldl (λ h op, match op with
                 | OpSet key value => HeaderSet h key value
                 | OpAdd key value => HeaderAdd h key value
                 | OpDel key => HeaderDel h key
                 | _ => h
                 end) h ops.

(** The requests of a run that carry a configured header: those on which
    some configured header has a value that is not empty. *)
Definition withHeaderSet (c : CustomMetrics) (reqs : list Header)
    : list Header :=
  filter (λ req, Exists (λ h, Get req h ≠ "") (metricHeaders c)) reqs.


(** The exchanges of a run whose label for the header [h] is [v]. *)
Definition withLabel (h v : string) (xs : list Exchange) : list Exchange :=
  filter (λ x, headerLabel (xreq x) (xresp x) h = v) xs.

(** The calls of a handler that are not header calls. *)
Definition isWriteOp (op : WriterOp) : Prop :=
  match op with
  | OpWriteHeader _ | OpWrite _ => True
  | _ => False
  end.

(** The states in which [Stop] has not passed its receive and the server
    is neither closed nor back from [Serve]. *)
Definition stopBlocked (s : Lifecycle) : Prop :=
  (stopPc s = StopCalled ∨ stopPc s = StopWaiting) ∧
  servePc s = Serving ∧
  serverStoppedClosed s = false ∧
  serverClosed s = false.

(** The one metric of the variant, holding [v]. *)
Definition singleMetric (c : CustomMetrics) (v : float) : Metric :=
  {| Name := metricName c; Type_ := metricType c; Value := v; Labels := ∅ |}.

(** What [collectMetrics] of the variant makes of the value, by kind. *)
Definition singleStep (c : CustomMetrics) (v : float) (req : Header) : float :=
  if decide (metricType c = MetricTypeCounter) then
    if SingleSeries.anyHeader req (metricHeaders c) then (v + 1)%float else v
  else if decide (isGaugeKind (metricType c)) then
    SingleSeriesRun.requestValue c req
  else v.

End Vocabulary2.

(** * Concrete plugins and exchanges

    The configurations of the repository's tests and of the specification's
    scenarios. *)

(** The plugin of [TestMetrics]. *)
Definition testCounter : CustomMetrics :=
  {| metricHeaders := ["X-User-ID"; "X-Request-Size"];
     metricName := "test_counter";
     metricType := MetricTypeCounter;
     metricsPort := 8082;
     name := "metrics-plugin" |}.

(** Its request, [X-User-ID: user123] and [X-Request-Size: 1024], as
    [Header.Set] stores it. *)
Definition testRequest : Header :=
  {[ "X-User-Id" := ["user123"]; "X-Request-Size" := ["1024"] ]}.

(** Two exchanges with these headers; the range of the first call visits the
    labels in the configured order, that of the second in the other one. *)
Definition exchangeConfigured : Exchange :=
  {| xreq := testRequest; xresp := ∅;
     xord := ["X-User-ID"; "X-Request-Size"] |}.
Definition exchangeSwapped : Exchange :=
  {| xreq := testRequest; xresp := ∅;
     xord := ["X-Request-Size"; "X-User-ID"] |}.

Definition testLabels : gmap string string :=
  {[ "X-User-ID" := "user123"; "X-Request-Size" := "1024" ]}.

Definition testSeries (v : float) : Metric :=
  {| Name := "test_counter"; Type_ := "counter"; Value := v;
     Labels := testLabels |}.

(** The store after two exchanges of the test whose ranges differ, and the
    data line of the test series when its labels are visited in the
    configured order. *)
Definition splitStore : MetricsStore :=
  {[ "test_counter_X-User-ID_user123_X-Request-Size_1024" := testSeries 1;
     "test_counter_X-Request-Size_1024_X-User-ID_user123" := testSeries 1 ]}.

Definition testLine : string :=
  "test_counter{X-User-ID=" +:+ dquote +:+ "user123" +:+ dquote
  +:+ ",X-Request-Size=" +:+ dquote +:+ "1024" +:+ dquote +:+ "} 1".


Definition summaryConfig : Config :=
  {| MetricHeaders := ["X-User-ID"];
     MetricName := "requests";
     MetricType := "summary";
     MetricsPort := 8081 |}.

(** The gauge of the specification's scenario. *)
Definition sizeGauge : CustomMetrics :=
  {| metricHeaders := ["X-Size"];
     metricName := "g";
     metricType := MetricTypeGauge;
     metricsPort := 8081;
     name := "gauge-plugin" |}.

Definition sizeRequest : Header := {[ "X-Size" := ["1024"] ]}.

Definition sizeExchange : Exchange :=
  {| xreq := sizeRequest; xresp := ∅; xord := ["X-Size"] |}.

(** The plugin of [TestCombinedRequestResponseHeaders], as a gauge. *)
Definition combinedGauge : CustomMetrics :=
  {| metricHeaders := ["X-User-ID"; "X-Response-ID"];
     metricName := "combined_test";
     metricType := MetricTypeGauge;
     metricsPort := 8083;
     name := "combined-test-plugin" |}.

(** An exchange without headers. *)
Definition bareExchange : Exchange :=
  {| xreq := ∅; xresp := ∅; xord := ["X-User-ID"; "X-Response-ID"] |}.

(** A second exchange of the gauge, [X-Size: 2048]. *)
Definition largeExchange : Exchange :=
  {| xreq := {[ "X-Size" := ["2048"] ]}; xresp := ∅; xord := ["X-Size"] |}.

(** The counter of the specification's first scenario and its exchanges. *)
Definition userCounter : CustomMetrics :=
  {| metricHeaders := ["X-User-ID"];
     metricName := "c";
     metricType := MetricTypeCounter;
     metricsPort := 8081;
     name := "counter-plugin" |}.

Definition userExchange (user : string) : Exchange :=
  {| xreq := {[ "X-User-Id" := [user] ]}; xresp := ∅;
     xord := ["X-User-ID"] |}.

(** A plugin with two headers and two exchanges whose values hold the
    separator of the key. *)
Definition pairCounter : CustomMetrics :=
  {| metricHeaders := ["a"; "b"];
     metricName := "m";
     metricType := MetricTypeCounter;
     metricsPort := 8081;
     name := "pair-plugin" |}.

Definition pairExchange (a b : string) : Exchange :=
  {| xreq := {[ "A" := [a]; "B" := [b] ]}; xresp := ∅; xord := ["a"; "b"] |}.

(** The counter of the specification's third scenario and its downstream
    handler, which sets the header on the response only. *)
Definition responseCounter : CustomMetrics :=
  {| metricHeaders := ["X-Response-ID"];
     metricName := "r";
     metricType := MetricTypeCounter;
     metricsPort := 8083;
     name := "response-plugin" |}.

Definition responseHandler (req : Header) : list WriterOp :=
  [OpSet "X-Response-ID" "resp123"; OpWriteHeader 200].

(** A downstream handler that sets the header of the third scenario to a
    value with line feeds in it, and the store after one exchange with
    it. *)
Definition injectedValue : string :=
  "resp123" +:+ newline +:+ "# HELP r injected"
  +:+ newline +:+ "# TYPE r gauge".

Definition injectingHandler (req : Header) : list WriterOp :=
  [OpSet "X-Response-ID" injectedValue; OpWriteHeader 200].

Definition injectedExchange : Exchange :=
  {| xreq := ∅; xresp := {[ "X-Response-Id" := [injectedValue] ]};
     xord := ["X-Response-ID"] |}.

Definition injectedStore : MetricsStore :=
  {[ "r_X-Response-ID_" +:+ injectedValue :=
       {| Name := "r"; Type_ := "counter"; Value := 1%float;
          Labels := {[ "X-Response-ID" := injectedValue ]} |} ]}.

(** The configuration of [TestMetricsOnly]. *)
Definition onlyConfig : Config :=
  {| MetricHeaders := ["X-User-ID"];
     MetricName := "test_counter";
     MetricType := MetricTypeCounter;
     MetricsPort := 8084 |}.

Definition onlyGaugeConfig : Config :=
  {| MetricHeaders := ["X-Size"];
     MetricName := "g";
     MetricType := MetricTypeGauge;
     MetricsPort := 8084 |}.

(** The configuration of [TestMetrics], and requests that carry the second
    of its headers alone and the first alone. *)
Definition testConfig : Config :=
  {| MetricHeaders := ["X-User-ID"; "X-Request-Size"];
     MetricName := "test_counter";
     MetricType := MetricTypeCounter;
     MetricsPort := 8082 |}.

Definition sizeOnlyRequest : Header := {[ "X-Request-Size" := ["512"] ]}.
Definition userOnlyRequest : Header := {[ "X-User-Id" := ["user456"] ]}.

(** The series of the counter of the first scenario for a user. *)
Definition userSeries (user : string) (v : float) : Metric :=
  {| Name := "c"; Type_ := "counter"; Value := v;
     Labels := {[ "X-User-ID" := user ]} |}.

(** Its store after an exchange of [user456] and one of [user123]. *)
Definition twoUsers : MetricsStore :=
  {[ "c_X-User-ID_user456" := userSeries "user456" 1;
     "c_X-User-ID_user123" := userSeries "user123" 1 ]}.

(** An exchange of the plugin of kind summary. *)
Definition summaryExchange : Exchange :=
  {| xreq := testRequest; xresp := ∅; xord := ["X-User-ID"] |}.

(** * Proof tools *)


(** Closes an equation between closed terms by evaluation. *)
Ltac vm_reflexivity :=
  lazymatch goal with
  | |- @eq ?A _ ?y => vm_cast_no_check (@eq_refl A y)
  end.

Ltac range_order_by_computation :=
  unfold range_order; vm_compute; first [reflexivity | apply perm_swap].

(** * Properties *)

(** ** What one call of [collectMetrics] does to the store *)

Section CollectFacts.
Context `{GoRuntime}.

(** [collectMetrics] writes one entry: the updated metric, old or new. *)
Lemma collectMetrics_insert c ord req resp (store : MetricsStore) :
  collectMetrics c ord req resp store =
  <[metricKeyOf c ord req resp :=
      updateValue c req resp
        (default (newMetric c (collectLabels c req resp))
                 (store !! metricKeyOf c ord req resp))]> store.
Proof.
  unfold collectMetrics, updateValue.
  set (key := metricKeyOf c ord req resp).
  set (fresh := newMetric c (collectLabels c req resp)).
  apply map_eq; intros k.
  destruct (store !! key) as [metric|] eqn:Hkey; simpl;
    repeat case_decide;
    rewrite ?lookup_alter, ?lookup_insert; repeat case_decide;
    subst; rewrite ?lookup_insert_eq, ?Hkey; simpl; try done.
Qed.

Lemma collectMetrics_lookup_key c ord req resp (store : MetricsStore) :
  collectMetrics c ord req resp store !! metricKeyOf c ord req resp =
  Some (updateValue c req resp
          (default (newMetric c (collectLabels c req resp))
                   (store !! metricKeyOf c ord req resp))).
Proof. rewrite collectMetrics_insert at 1. apply lookup_insert_eq. Qed.

Lemma collectMetrics_lookup_ne c ord req resp (store : MetricsStore) k :
  k ≠ metricKeyOf c ord req resp →
  collectMetrics c ord req resp store !! k = store !! k.
Proof.
  intros Hne. rewrite collectMetrics_insert. by apply lookup_insert_ne.
Qed.

Lemma updateValue_Name c req resp metric :
  Name (updateValue c req resp metric) = Name metric.
Proof. unfold updateValue. by repeat case_decide. Qed.

Lemma updateValue_Type c req resp metric :
  Type_ (updateValue c req resp metric) = Type_ metric.
Proof. unfold updateValue. by repeat case_decide. Qed.

Lemma updateValue_Labels c req resp metric :
  Labels (updateValue c req resp metric) = Labels metric.
Proof. unfold updateValue. by repeat case_decide. Qed.

End CollectFacts.

(** ** Labels and range orders *)

Section LabelFacts.
Context `{GoRuntime}.

Lemma foldl_insert_lookup (g : string → string) (l : list string)
    (init : gmap string string) (k : string) :
  foldl (λ labels h, <[h := g h]> labels) init l !! k =
  if decide (k ∈ l) then Some (g k) else init !! k.
Proof.
  revert init. induction l as [|h l IH]; intros init; cbn [foldl].
  - case_decide as Hin; [by apply elem_of_nil in Hin | done].
  - rewrite IH. destruct (decide (k ∈ l)) as [Hin|Hnin].
    + rewrite decide_True; [done | by right].
    + destruct (decide (k = h)) as [->|Hne].
      * rewrite lookup_insert_eq. rewrite decide_True; [done | by left].
      * rewrite lookup_insert_ne by done.
        rewrite decide_False; [done |]. by intros [?|?]%elem_of_cons.
Qed.

Lemma collectLabels_lookup c req resp k :
  collectLabels c req resp !! k =
  if decide (k ∈ metricHeaders c) then Some (headerLabel req resp k) else None.
Proof.
  unfold collectLabels. rewrite foldl_insert_lookup.
  by rewrite lookup_empty.
Qed.

Lemma collectLabels_dom c req resp :
  dom (collectLabels c req resp) = list_to_set (metricHeaders c).
Proof.
  apply set_eq; intros k.
  rewrite elem_of_dom, collectLabels_lookup, elem_of_list_to_set.
  case_decide; [by split; eauto | split; [by intros [? ?] | done]].
Qed.

Lemma collectLabels_size_pos c req resp :
  0 < size (collectLabels c req resp) ↔ metricHeaders c ≠ [].
Proof.
  split.
  - intros Hsz Hnil. unfold collectLabels in Hsz. rewrite Hnil in Hsz.
    simpl in Hsz. rewrite map_size_empty in Hsz. lia.
  - intros Hne. destruct (metricHeaders c) as [|h l] eqn:Hh; [done|].
    assert (collectLabels c req resp !! h = Some (headerLabel req resp h))
      as Hl.
    { rewrite collectLabels_lookup, Hh. rewrite decide_True; [done | by left]. }
    destruct (decide (size (collectLabels c req resp) = 0)) as [Hz|Hz];
      [| lia].
    apply map_size_empty_iff in Hz. rewrite Hz, lookup_empty in Hl. done.
Qed.

Lemma range_order_elem_of {V} (m : gmap string V) ord k :
  range_order m ord → k ∈ ord ↔ is_Some (m !! k).
Proof.
  unfold range_order. intros ->.
  rewrite list_elem_of_fmap. split.
  - intros [[k' v] [-> Hin]]. apply elem_of_map_to_list in Hin. eauto.
  - intros [v Hv]. exists (k, v). split; [done|].
    by apply elem_of_map_to_list.
Qed.

Lemma range_order_NoDup {V} (m : gmap string V) ord :
  range_order m ord → NoDup ord.
Proof. unfold range_order. intros ->. apply NoDup_fst_map_to_list. Qed.

(** Two range orders of maps with the same keys are permutations of one
    another. *)
Lemma range_order_same_dom {V W} (m : gmap string V) (m' : gmap string W)
    ord ord' :
  dom m = dom m' → range_order m ord → range_order m' ord' → ord ≡ₚ ord'.
Proof.
  intros Hdom Ho Ho'. apply NoDup_Permutation.
  - by eapply range_order_NoDup.
  - by eapply range_order_NoDup.
  - intros k. rewrite (range_order_elem_of m), (range_order_elem_of m') by done.
    by rewrite <- !elem_of_dom, Hdom.
Qed.

(** The configured header list, when it has no repetition, is one of the
    orders in which the range can visit the labels. *)
Lemma range_order_configured c req resp :
  NoDup (metricHeaders c) →
  range_order (collectLabels c req resp) (metricHeaders c).
Proof.
  intros Hnd. unfold range_order. apply NoDup_Permutation; [done | |].
  - apply NoDup_fst_map_to_list.
  - intros k. rewrite list_elem_of_fmap. split.
    + intros Hin. exists (k, headerLabel req resp k). split; [done|].
      apply elem_of_map_to_list. rewrite collectLabels_lookup.
      by rewrite decide_True.
    + intros [[k' v] [-> Hin]]. apply elem_of_map_to_list in Hin.
      rewrite collectLabels_lookup in Hin. simpl. by case_decide.
Qed.

End LabelFacts.

(** ** Strings *)

Lemma append_cons (x : ascii) (a b : string) :
  String x a +:+ b = String x (a +:+ b).
Proof. reflexivity. Qed.

Lemma append_assoc (a b c : string) : (a +:+ b) +:+ c = a +:+ (b +:+ c).
Proof.
  induction a as [|x a IH]; [done | by rewrite !append_cons, IH].
Qed.

Lemma append_nil_r (a : string) : a +:+ "" = a.
Proof. induction a as [|x a IH]; [done | by rewrite append_cons, IH]. Qed.

Lemma length_append (a b : string) :
  String.length (a +:+ b) = String.length a + String.length b.
Proof.
  induction a as [|x a IH]; [done | rewrite append_cons; simpl; by rewrite IH].
Qed.

Lemma length_zero_empty (a : string) : String.length a = 0 → a = "".
Proof. by destruct a. Qed.

(** ** Series keys *)

Section KeyFacts.
Context `{GoRuntime}.

Lemma createMetricKey_segments ord metricName (labels : gmap string string) :
  createMetricKey ord metricName labels =
  metricName +:+
  String.concat "" ((λ k, keySegment k (labels !!! k)) <$> ord).
Proof.
  unfold createMetricKey. revert metricName.
  induction ord as [|k ord IH]; intros metricName; cbn [foldl fmap list_fmap].
  - simpl. by rewrite append_nil_r.
  - rewrite IH, append_assoc. f_equal.
    destruct ord as [|k' ord]; simpl; [by rewrite append_nil_r | done].
Qed.

(** When the range visits the labels in the configured order,
    [createMetricKey] returns the key of the specification. *)
Lemma createMetricKey_configured_order c req resp :
  createMetricKey (metricHeaders c) (metricName c) (collectLabels c req resp)
  = specSeriesKey c req resp.
Proof.
  rewrite createMetricKey_segments. unfold specSeriesKey. do 2 f_equal.
  apply Forall_fmap_ext_1, Forall_forall. intros k Hk. f_equal.
  apply lookup_total_correct.
  by rewrite collectLabels_lookup, decide_True.
Qed.

(** With one configured header there is one range order, hence one key. *)
Lemma metricKeyOf_single_header c h ord req resp :
  metricHeaders c = [h] →
  exchange_ok c {| xreq := req; xresp := resp; xord := ord |} →
  metricKeyOf c ord req resp = specSeriesKey c req resp.
Proof.
  intros Hh Hok. unfold exchange_ok in Hok. simpl in Hok.
  assert (ord ≡ₚ [h]) as Hord.
  { eapply range_order_same_dom; [reflexivity | exact Hok |].
    rewrite <- Hh. apply range_order_configured. rewrite Hh.
    apply NoDup_singleton. }
  apply Permutation_singleton_r in Hord. subst ord.
  unfold metricKeyOf. rewrite decide_True.
  - rewrite <- Hh. apply createMetricKey_configured_order.
  - apply collectLabels_size_pos. by rewrite Hh.
Qed.

(** The length of a key does not depend on the order of the range. *)
Lemma createMetricKey_length ord metricName (labels : gmap string string) :
  String.length (createMetricKey ord metricName labels) =
  String.length metricName +
  sum_list ((λ k, 2 + String.length k + String.length (labels !!! k)) <$> ord).
Proof.
  unfold createMetricKey. revert metricName.
  induction ord as [|k ord IH]; intros metricName; cbn [foldl fmap list_fmap].
  - simpl. lia.
  - rewrite IH. unfold keySegment. rewrite !length_append. simpl. lia.
Qed.

End KeyFacts.

(** ** Counters *)

Section CounterFacts.
Context `{GoRuntime}.

(** The counter update does not look at the headers: whatever the exchange,
    the series filed under the derived key goes from [v] to [v + 1] (from [0]
    when the series is new). *)
Lemma counter_increments c ord req resp (store : MetricsStore) :
  metricType c = MetricTypeCounter →
  Value <$> collectMetrics c ord req resp store !! metricKeyOf c ord req resp
  = Some (default 0 (Value <$> store !! metricKeyOf c ord req resp) + 1)%float.
Proof.
  intros Hkind. rewrite collectMetrics_lookup_key. unfold updateValue.
  rewrite decide_True by done.
  by destruct (store !! metricKeyOf c ord req resp).
Qed.

(** [N] observations that derive one key [k], on a store where [k] is free,
    leave the series at [k] with [0] incremented [N] times. *)
Lemma counter_counts_per_key c (xs : list Exchange) (store : MetricsStore) k :
  metricType c = MetricTypeCounter →
  Forall (λ x, metricKeyOf c (xord x) (xreq x) (xresp x) = k) xs →
  Value <$> run c xs store !! k =
  (if decide (xs = []) then Value <$> store !! k
   else Some (Nat.iter (length xs) (λ v, v + 1)%float
                       (default 0%float (Value <$> store !! k)))).
Proof.
  intros Hkind. revert store.
  induction xs as [|x xs IH]; intros store Hall; [done|].
  apply Forall_cons in Hall as [Hx Hall].
  assert (Value <$> observe c store x !! k =
          Some (default 0 (Value <$> store !! k) + 1)%float) as Hstep.
  { unfold observe. rewrite <- Hx. by apply counter_increments. }
  unfold run in *. cbn [foldl]. rewrite IH, Hstep by done.
  destruct (decide (x :: xs = [])) as [?|_]; [done|].
  destruct (decide (xs = [])) as [->|_]; [done|].
  cbn [default length]. f_equal. symmetry.
  exact (Nat.iter_succ_r (length xs) (λ v, v + 1)%float _).
Qed.

(** The single-series variant counts an exchange only when a configured
    header is set on its request. *)
Lemma anyHeader_absent req names :
  (∀ n, n ∈ names → Get req n = "") → SingleSeries.anyHeader req names = false.
Proof.
  induction names as [|n names IH]; intros Habs; [done|].
  cbn [SingleSeries.anyHeader]. rewrite decide_True by (apply Habs; by left).
  apply IH. intros n' Hn'. apply Habs. by right.
Qed.

Lemma single_series_counter_skips c req (store : MetricsStore) :
  metricType c = MetricTypeCounter →
  (∀ h, h ∈ metricHeaders c → Get req h = "") →
  SingleSeries.collectMetrics c req store = store.
Proof.
  intros Hkind Habs. unfold SingleSeries.collectMetrics.
  case_decide; [done|]. destruct (store !! metricName c); [|done].
  by rewrite decide_True, anyHeader_absent.
Qed.

End CounterFacts.

(** ** Gauges and histograms *)

Section GaugeFacts.
Context `{GoRuntime}.

Lemma scanHeaders_head h names :
  scanHeaders h names = head (omap parsesAs (Get h <$> names)).
Proof.
  induction names as [|n names IH]; [done|].
  cbn [scanHeaders fmap list_fmap omap list_omap]. unfold parsesAs at 1.
  case_decide; [done|]. by destruct (ParseFloat (Get h n)).
Qed.

Lemma getNumericValueFromHeaders_first c req resp :
  getNumericValueFromHeaders c req resp = firstNumericOr1 c req resp.
Proof.
  unfold getNumericValueFromHeaders, firstNumericOr1, numericCandidates.
  rewrite omap_app, !scanHeaders_head.
  by destruct (omap parsesAs (Get req <$> metricHeaders c)).
Qed.

Lemma updateValue_gauge c req resp metric :
  isGaugeKind (metricType c) →
  updateValue c req resp metric =
  set_Value (getNumericValueFromHeaders c req resp) metric.
Proof.
  intros Hkind. unfold updateValue.
  rewrite decide_False.
  - rewrite decide_True; [done|]. destruct Hkind; [by right | by left].
  - destruct Hkind as [-> | ->]; done.
Qed.

(** C3.  Under the gauge kind (and the histogram kind) an observation sets
    the value of the series it files the exchange under to the first value
    that parses as a float64 among the configured headers, those of the
    request in configured order and then those of the response, or to 1 when
    none parses.  With the one header X-Size configured on the metric g, an
    exchange whose request carries X-Size: 1024 leaves, from the empty store,
    the one series g with label X-Size=1024 and value 1024. *)
Theorem gauge_value_first_numeric :
  (∀ c ord req resp (store : MetricsStore),
     isGaugeKind (metricType c) →
     ∃ metric,
       collectMetrics c ord req resp store !! metricKeyOf c ord req resp
       = Some metric ∧
       Value metric = firstNumericOr1 c req resp) ∧
  (∀ c ord req resp,
     isGaugeKind (metricType c) →
     metricHeaders c = ["X-Size"] → metricName c = "g" →
     Get req "X-Size" = "1024" → ParseFloat "1024" = Some 1024%float →
     exchange_ok c {| xreq := req; xresp := resp; xord := ord |} →
     collectMetrics c ord req resp ∅ =
     {[ "g_X-Size_1024" :=
          {| Name := "g"; Type_ := metricType c; Value := 1024%float;
             Labels := {[ "X-Size" := "1024" ]} |} ]}).
Proof.
  split.
  - intros c ord req resp store Hkind. eexists. split.
    + apply collectMetrics_lookup_key.
    + rewrite updateValue_gauge by done.
      apply getNumericValueFromHeaders_first.
  - intros c ord req resp Hkind Hh Hn Hreq Hparse Hok.
    rewrite collectMetrics_insert, lookup_empty. cbn [default].
    rewrite (metricKeyOf_single_header c "X-Size") by done.
    rewrite updateValue_gauge by done.
    unfold specSeriesKey, getNumericValueFromHeaders, collectLabels,
      newMetric, set_Value, headerLabel.
    rewrite Hh, Hn. cbn [scanHeaders fmap list_fmap foldl].
    rewrite Hreq, Hparse. cbn. rewrite insert_empty. done.
Qed.

End GaugeFacts.

(** ** Rendering *)

Section RenderFacts.

Lemma renderLoop_helpAdded lord (store : MetricsStore) sord :
  renderLoop lord store true sord = omap (dataLineAt lord store) sord.
Proof.
  induction sord as [|k sord IH]; [done|].
  cbn [renderLoop omap list_omap]. unfold dataLineAt at 1.
  destruct (store !! k) as [metric|]; simpl; [by rewrite IH | done].
Qed.

Lemma renderLines_cons lord (store : MetricsStore) k sord metric :
  store !! k = Some metric →
  renderLines (k :: sord) lord store =
  HelpLine (Name metric) :: TypeLine (Name metric) (Type_ metric)
  :: omap (dataLineAt lord store) (k :: sord).
Proof.
  intros Hk. unfold renderLines. cbn [renderLoop]. rewrite Hk.
  rewrite renderLoop_helpAdded. cbn [omap list_omap].
  unfold dataLineAt at 2. rewrite Hk. done.
Qed.

Lemma dataLineAt_entries lord (store : MetricsStore) (l : list (string * Metric)) :
  Forall (λ e, store !! e.1 = Some e.2) l →
  omap (dataLineAt lord store) l.*1 = dataLine lord <$> l.
Proof.
  induction 1 as [|[k metric] l Hk _ IH]; [done|].
  simpl in *. unfold dataLineAt at 1. rewrite Hk. simpl. f_equal. exact IH.
Qed.

(** The data lines of a rendering are the data lines of the entries of the
    store, each once. *)
Lemma dataLines_store lord (store : MetricsStore) sord :
  range_order store sord →
  omap (dataLineAt lord store) sord ≡ₚ dataLine lord <$> map_to_list store.
Proof.
  unfold range_order. intros ->. rewrite dataLineAt_entries; [done|].
  apply Forall_forall. intros [k metric] Hin.
  by apply elem_of_map_to_list in Hin.
Qed.

Lemma range_order_length {V} (m : gmap string V) ord :
  range_order m ord → length ord = size m.
Proof.
  unfold range_order. intros ->. by rewrite length_fmap, length_map_to_list.
Qed.

(** A line without labels is the metric name alone. *)
Lemma metricLine_no_labels lo metric :
  Labels metric = ∅ → metricLine lo metric = Name metric.
Proof.
  intros Hl. unfold metricLine. rewrite Hl, map_size_empty.
  by rewrite decide_False by lia.
Qed.

End RenderFacts.

(** ** Label order within a data line *)

Section LabelOrderFacts.




End LabelOrderFacts.

(** ** Construction *)

Section NewFacts.

Lemma initializeMetrics_supported c :
  PromClient.initializeMetrics c = None ↔ supportedKind (metricType c).
Proof.
  unfold PromClient.initializeMetrics, supportedKind.
  repeat case_decide; naive_solver.
Qed.

(** C6.  [New] fails with the configuration error exactly when the
    configured header list is empty; with a header configured it returns the
    plugin and its empty store when the scrape port binds and the
    port error otherwise, whatever the metric kind.  The metric kind is
    looked at by the Prometheus-client variant alone, whose [New] fails on
    initialisation exactly when a header is configured and the kind is none
    of counter, gauge, histogram; the [New] of every variant fails with the
    configuration error exactly on the empty header list. *)
Theorem New_fails_on_empty_headers listen config name :
  (New listen config name = inl ErrEmptyHeaders ↔ MetricHeaders config = []) ∧
  (MetricHeaders config ≠ [] →
   New listen config name =
   if listen (MetricsPort config) then inr (pluginOf config name, ∅)
   else inl (ErrStartServer (ErrPortInUse (MetricsPort config)))) ∧
  (PromClient.New listen config name
   = inl (ErrInitializeMetrics (ErrUnsupportedType (MetricType config)))
   ↔ MetricHeaders config ≠ [] ∧ ¬ supportedKind (MetricType config)) ∧
  (PromClient.New listen config name = inl ErrEmptyHeaders
   ↔ MetricHeaders config = []) ∧
  (SingleSeries.New listen config name = inl ErrEmptyHeaders
   ↔ MetricHeaders config = []).
Proof.
  unfold New, PromClient.New, SingleSeries.New, startMetricsServer.
  pose proof (initializeMetrics_supported (pluginOf config name)) as Hinit.
  destruct (PromClient.initializeMetrics (pluginOf config name)) as [e|] eqn:He.
  - assert (e = ErrUnsupportedType (MetricType config)) as ->.
    { unfold PromClient.initializeMetrics in He.
      repeat case_decide; by simplify_eq/=. }
    assert (¬ supportedKind (MetricType config)) as Hns.
    { intros Hs. apply Hinit in Hs. done. }
    destruct (MetricHeaders config) as [|h hs]; simpl;
      destruct (listen (MetricsPort config)); naive_solver.
  - assert (supportedKind (MetricType config)) as Hs by by apply Hinit.
    destruct (MetricHeaders config) as [|h hs]; simpl;
      destruct (listen (MetricsPort config)); naive_solver.
Qed.

End NewFacts.

(** ** The store invariant *)

Section InvariantFacts.
Context `{GoRuntime}.

Lemma newMetric_ok c req resp : metric_ok c (newMetric c (collectLabels c req resp)).
Proof. split_and!; [done | done | apply collectLabels_dom]. Qed.

Lemma updateValue_ok c req resp metric :
  metric_ok c metric → metric_ok c (updateValue c req resp metric).
Proof.
  unfold metric_ok.
  by rewrite updateValue_Name, updateValue_Type, updateValue_Labels.
Qed.

Lemma collectMetrics_store_invariant c ord req resp (store : MetricsStore) :
  store_invariant c store →
  store_invariant c (collectMetrics c ord req resp store).
Proof.
  intros Hinv k metric. rewrite collectMetrics_insert, lookup_insert.
  case_decide as Hk; [|by apply Hinv].
  intros [= <-]. apply updateValue_ok.
  destruct (store !! metricKeyOf c ord req resp) as [old|] eqn:Hold; simpl.
  - by eapply Hinv.
  - apply newMetric_ok.
Qed.

Lemma collectMetrics_keyed c ord req resp (store : MetricsStore) :
  range_order (collectLabels c req resp) ord →
  keyed c store → keyed c (collectMetrics c ord req resp store).
Proof.
  intros Hord Hkeyed k metric. rewrite collectMetrics_insert, lookup_insert.
  case_decide as Hk; [|by apply Hkeyed].
  intros [= <-]. rewrite updateValue_Labels.
  destruct (store !! metricKeyOf c ord req resp) as [old|] eqn:Hold; simpl.
  - rewrite <- Hk. by eapply Hkeyed.
  - exists ord. by subst k.
Qed.

Lemma reachable_store_invariant c (store : MetricsStore) :
  reachable c store → store_invariant c store.
Proof.
  induction 1 as [|store x _ IH _].
  - intros k metric Hk. by rewrite lookup_empty in Hk.
  - by apply collectMetrics_store_invariant.
Qed.

Lemma reachable_keyed c (store : MetricsStore) :
  reachable c store → keyed c store.
Proof.
  induction 1 as [|store x _ IH Hok].
  - intros k metric Hk. by rewrite lookup_empty in Hk.
  - by apply collectMetrics_keyed.
Qed.

(** A run of exchanges whose range orders are well formed stays within the
    reachable stores. *)
Lemma reachable_run c xs (store : MetricsStore) :
  reachable c store → Forall (exchange_ok c) xs → reachable c (run c xs store).
Proof.
  intros Hr Hall. revert store Hr.
  induction Hall as [|x xs Hx _ IH]; intros store Hr; [done|].
  apply IH. by constructor.
Qed.

(** C9.  The store of a plugin starts empty, and every call of
    [collectMetrics] keeps the invariant that each stored metric has the
    configured name as its [Name], the configured kind as its [Type], and a
    [Labels] map whose keys are exactly the configured header names; so the
    invariant holds of every store the plugin reaches. *)
Theorem store_invariant_kept c :
  store_invariant c ∅ ∧
  (∀ ord req resp (store : MetricsStore),
     store_invariant c store →
     store_invariant c (collectMetrics c ord req resp store)) ∧
  (∀ store : MetricsStore,
     reachable c store →
     ∀ k metric, store !! k = Some metric →
       Name metric = metricName c ∧ Type_ metric = metricType c ∧
       ∀ h, h ∈ dom (Labels metric) ↔ h ∈ metricHeaders c).
Proof.
  split_and!.
  - intros k metric Hk. by rewrite lookup_empty in Hk.
  - intros. by apply collectMetrics_store_invariant.
  - intros store Hr k metric Hk.
    destruct (reachable_store_invariant c store Hr k metric Hk)
      as (Hn & Ht & Hd).
    split_and!; [done | done |]. intros h.
    by rewrite Hd, elem_of_list_to_set.
Qed.

End InvariantFacts.

Section RenderReachable.
Context `{GoRuntime}.

(** The text is the texts of the lines, in their order. *)
Lemma renderPrometheusFormat_lines sord lord (store : MetricsStore) :
  renderPrometheusFormat sord lord store
  = joinLines (showLine <$> renderLines sord lord store).
Proof.
  unfold renderPrometheusFormat.
  assert (∀ ls output,
            foldl (λ output l, output +:+ showLine l) output ls
            = output +:+ joinLines (showLine <$> ls)) as Hfold.
  { induction ls as [|l ls IH]; intros output.
    - simpl. by rewrite append_nil_r.
    - cbn [foldl]. rewrite IH. rewrite append_assoc. done. }
  by rewrite Hfold.
Qed.

(** The text of a store a plugin has reached, when it is not empty: the
    HELP line and the TYPE line of the configured name and kind, then the
    text of one data line for each entry of the store, whatever the labels
    of the entries. *)
Lemma renderPrometheusFormat_reachable c (store : MetricsStore) sord lord :
  reachable c store → render_order store sord lord → store ≠ ∅ →
  ∃ datalines,
    datalines ≡ₚ dataLine lord <$> map_to_list store ∧
    renderPrometheusFormat sord lord store
    = showLine (HelpLine (metricName c))
      +:+ showLine (TypeLine (metricName c) (metricType c))
      +:+ joinLines (showLine <$> datalines).
Proof.
  intros Hr [Hsord _] Hne. destruct sord as [|k sord].
  { apply range_order_length in Hsord. simpl in Hsord.
    symmetry in Hsord. apply map_size_empty_iff in Hsord. done. }
  assert (is_Some (store !! k)) as [metric Hk].
  { apply (range_order_elem_of store (k :: sord)); [done | by left]. }
  destruct (reachable_store_invariant c store Hr k metric Hk)
    as (Hname & Hkind & _).
  exists (omap (dataLineAt lord store) (k :: sord)).
  split; [by apply dataLines_store|].
  rewrite renderPrometheusFormat_lines, (renderLines_cons _ _ _ _ _ Hk).
  by rewrite Hname, Hkind.
Qed.


End RenderReachable.

(** ** Exchanges without any configured header *)

Section MissingHeaders.
Context `{GoRuntime}.

Lemma collectLabels_allAbsent c req resp :
  allAbsent c req resp → emptyLabels c (collectLabels c req resp).
Proof.
  intros Habs h. rewrite collectLabels_lookup. case_decide as Hin; [|done].
  destruct (Habs h Hin) as [Hreq Hresp]. unfold headerLabel.
  rewrite Hreq, Hresp. by rewrite !decide_True.
Qed.

Lemma scanHeaders_absent h names :
  (∀ n, n ∈ names → Get h n = "") → scanHeaders h names = None.
Proof.
  induction names as [|n names IH]; intros Habs; [done|].
  cbn [scanHeaders]. rewrite decide_True by (apply Habs; by left).
  apply IH. intros n' Hn'. apply Habs. by right.
Qed.

Lemma getNumericValueFromHeaders_allAbsent c req resp :
  allAbsent c req resp → getNumericValueFromHeaders c req resp = 1%float.
Proof.
  intros Habs. unfold getNumericValueFromHeaders.
  rewrite !scanHeaders_absent; [done | |]; intros n Hn; by apply Habs.
Qed.

Lemma sum_list_pointwise {A} (f g : A → nat) (l : list A) :
  (∀ x, (g x ≤ f x)%nat) → sum_list (f <$> l) = sum_list (g <$> l) →
  ∀ x, x ∈ l → f x = g x.
Proof.
  intros Hle. induction l as [|y l IH]; intros Hsum x Hx.
  - by apply elem_of_nil in Hx.
  - rewrite !fmap_cons in Hsum. simpl in Hsum.
    assert (sum_list (g <$> l) ≤ sum_list (f <$> l))%nat as Hrest.
    { clear -Hle. induction l as [|z l IH]; [done|].
      rewrite !fmap_cons. simpl. pose proof (Hle z). lia. }
    pose proof (Hle y).
    apply elem_of_cons in Hx as [->|Hx]; [lia|]. apply IH; [lia | done].
Qed.

(** Labels with the keys of the all-empty labels, filed under a key of the
    all-empty labels, are the all-empty labels: a key is as long as its
    name, its header names and its label values together. *)
Lemma key_of_emptyLabels c ord ord' (labels empty : gmap string string) :
  emptyLabels c empty → dom labels = dom empty →
  range_order labels ord' → range_order empty ord →
  keyOfLabels c ord' labels = keyOfLabels c ord empty →
  labels = empty.
Proof.
  intros Hempty Hdom Hord' Hord Hkey.
  assert (ord' ≡ₚ ord) as Hperm by by eapply range_order_same_dom.
  assert (size labels = size empty) as Hsz.
  { by rewrite <- (range_order_length labels ord'),
         <- (range_order_length empty ord), Hperm. }
  unfold keyOfLabels in Hkey. rewrite Hsz in Hkey.
  apply map_eq. intros k.
  destruct (decide (k ∈ dom labels)) as [Hin|Hnin].
  - case_decide as Hpos.
    2:{ apply elem_of_dom in Hin as [v Hv].
        assert (size labels = 0) as Hz by lia.
        apply map_size_empty_iff in Hz. by rewrite Hz, lookup_empty in Hv. }
    apply (f_equal String.length) in Hkey.
    rewrite !createMetricKey_length, Hperm in Hkey.
    assert (k ∈ ord) as Hk.
    { apply (range_order_elem_of empty); [done|].
      apply elem_of_dom. by rewrite <- Hdom. }
    assert (∀ k', empty !!! k' = "") as Hval.
    { intros k'. unfold lookup_total, map_lookup_total. rewrite Hempty.
      by case_decide. }
    set (fL := λ k, 2 + String.length k + String.length (labels !!! k)) in *.
    set (fE := λ k, 2 + String.length k + String.length (empty !!! k)) in *.
    assert (∀ x, (fE x ≤ fL x)%nat) as Hle.
    { intros x. unfold fE, fL. rewrite Hval. simpl. lia. }
    assert (sum_list (fL <$> ord) = sum_list (fE <$> ord)) as Hsum by lia.
    pose proof (sum_list_pointwise fL fE ord Hle Hsum k Hk) as Hpt.
    unfold fL, fE in Hpt. rewrite Hval in Hpt. simpl in Hpt.
    assert (labels !!! k = "") as Hlk by (apply length_zero_empty; lia).
    apply elem_of_dom in Hin as [v Hv].
    rewrite (lookup_total_correct _ _ _ Hv) in Hlk. subst v.
    rewrite Hv, Hempty, decide_True; [done|].
    apply (range_order_elem_of empty ord k Hord) in Hk as [w Hw].
    rewrite Hempty in Hw. by case_decide.
  - rewrite (not_elem_of_dom_1 labels k Hnin).
    rewrite Hdom in Hnin. by rewrite (not_elem_of_dom_1 empty k Hnin).
Qed.

(** C7.  An exchange on which no configured header is set, neither on the
    request nor on the response, is filed under one series: after the call
    the store holds, at the key derived for the exchange, a metric whose
    labels map every configured header name to the empty string (and nothing
    else), whose value is 1 under the gauge and histogram kinds, and no
    other entry of the store has changed; from the empty store it is the
    only series. *)
Theorem missing_headers_default c (store : MetricsStore) x :
  reachable c store → exchange_ok c x →
  allAbsent c (xreq x) (xresp x) →
  ∃ metric,
    observe c store x !! metricKeyOf c (xord x) (xreq x) (xresp x)
    = Some metric ∧
    emptyLabels c (Labels metric) ∧
    (isGaugeKind (metricType c) → Value metric = 1%float) ∧
    (∀ k, k ≠ metricKeyOf c (xord x) (xreq x) (xresp x) →
          observe c store x !! k = store !! k) ∧
    (store = ∅ →
     observe c store x
     = {[ metricKeyOf c (xord x) (xreq x) (xresp x) := metric ]}).
Proof.
  intros Hr Hok Habs. unfold observe.
  set (key := metricKeyOf c (xord x) (xreq x) (xresp x)).
  set (labels := collectLabels c (xreq x) (xresp x)).
  pose proof (collectLabels_allAbsent c _ _ Habs) as Hempty.
  eexists. split; [apply collectMetrics_lookup_key|]. fold key labels.
  split_and!.
  - rewrite updateValue_Labels.
    destruct (store !! key) as [old|] eqn:Hold; simpl; [|done].
    destruct (reachable_keyed c store Hr key old Hold) as (ord' & Hord' & Hk).
    destruct (reachable_store_invariant c store Hr key old Hold)
      as (_ & _ & Hdom).
    rewrite (key_of_emptyLabels c (xord x) ord' (Labels old) labels);
      [done | done | | done | exact Hok | symmetry; exact Hk].
    unfold labels. by rewrite Hdom, collectLabels_dom.
  - intros Hkind. rewrite updateValue_gauge by done. simpl.
    by apply getNumericValueFromHeaders_allAbsent.
  - intros k Hne. by apply collectMetrics_lookup_ne.
  - intros ->. rewrite collectMetrics_insert. fold key labels.
    by rewrite lookup_empty, insert_empty.
Qed.

End MissingHeaders.

(** ** Histogram and gauge *)

Section HistogramFacts.
Context `{GoRuntime}.

Lemma isGaugeKind_histogram c :
  isGaugeKind (metricType (withKind MetricTypeHistogram c)).
Proof. right. reflexivity. Qed.

Lemma isGaugeKind_gauge c :
  isGaugeKind (metricType (withKind MetricTypeGauge c)).
Proof. left. reflexivity. Qed.

Lemma updateValue_histogram_gauge c req resp metric :
  set_Type MetricTypeGauge
    (updateValue (withKind MetricTypeHistogram c) req resp metric)
  = updateValue (withKind MetricTypeGauge c) req resp
      (set_Type MetricTypeGauge metric).
Proof.
  rewrite (updateValue_gauge (withKind MetricTypeHistogram c))
    by apply isGaugeKind_histogram.
  rewrite (updateValue_gauge (withKind MetricTypeGauge c))
    by apply isGaugeKind_gauge.
  done.
Qed.

Lemma collectMetrics_histogram_gauge c ord req resp (store : MetricsStore) :
  set_Type MetricTypeGauge
    <$> collectMetrics (withKind MetricTypeHistogram c) ord req resp store
  = collectMetrics (withKind MetricTypeGauge c) ord req resp
      (set_Type MetricTypeGauge <$> store).
Proof.
  rewrite !collectMetrics_insert, fmap_insert, lookup_fmap.
  change (metricKeyOf (withKind MetricTypeGauge c) ord req resp)
    with (metricKeyOf (withKind MetricTypeHistogram c) ord req resp).
  f_equal. rewrite updateValue_histogram_gauge. f_equal.
  by destruct (store !! _).
Qed.

Lemma run_histogram_gauge c xs (store : MetricsStore) :
  set_Type MetricTypeGauge <$> run (withKind MetricTypeHistogram c) xs store
  = run (withKind MetricTypeGauge c) xs (set_Type MetricTypeGauge <$> store).
Proof.
  revert store. induction xs as [|x xs IH]; intros store; [done|].
  unfold run in *. cbn [foldl]. rewrite IH. f_equal.
  apply collectMetrics_histogram_gauge.
Qed.

(** C8.  Under the histogram kind the plugin does what it does under the
    gauge kind: after any sequence of exchanges, the store of the histogram
    run with its kind field rewritten to gauge is the store of the gauge
    run, so the two hold the same keys, names, values and labels.  Under
    both kinds the value of the series an exchange is filed under is the
    numeric value of that exchange alone, whatever the series held before:
    nothing is accumulated into buckets. *)
Theorem histogram_updates_as_gauge c :
  (∀ xs,
     set_Type MetricTypeGauge
       <$> run (withKind MetricTypeHistogram c) xs ∅
     = run (withKind MetricTypeGauge c) xs ∅) ∧
  (∀ xs k,
     Name <$> run (withKind MetricTypeHistogram c) xs ∅ !! k
     = Name <$> run (withKind MetricTypeGauge c) xs ∅ !! k ∧
     Value <$> run (withKind MetricTypeHistogram c) xs ∅ !! k
     = Value <$> run (withKind MetricTypeGauge c) xs ∅ !! k ∧
     Labels <$> run (withKind MetricTypeHistogram c) xs ∅ !! k
     = Labels <$> run (withKind MetricTypeGauge c) xs ∅ !! k) ∧
  (∀ kind (store : MetricsStore) x,
     isGaugeKind kind →
     Value <$> observe (withKind kind c) store x
               !! metricKeyOf c (xord x) (xreq x) (xresp x)
     = Some (getNumericValueFromHeaders c (xreq x) (xresp x))).
Proof.
  assert (∀ xs,
    set_Type MetricTypeGauge <$> run (withKind MetricTypeHistogram c) xs ∅
    = run (withKind MetricTypeGauge c) xs ∅) as Hrun.
  { intros xs. by rewrite run_histogram_gauge, fmap_empty. }
  split_and!; [done | |].
  - intros xs k. rewrite <- Hrun, lookup_fmap.
    by destruct (run (withKind MetricTypeHistogram c) xs ∅ !! k).
  - intros kind store x Hkind. unfold observe.
    change (metricKeyOf c (xord x) (xreq x) (xresp x))
      with (metricKeyOf (withKind kind c) (xord x) (xreq x) (xresp x)).
    rewrite collectMetrics_lookup_key, updateValue_gauge by done. done.
Qed.

End HistogramFacts.

(** ** Frame *)

Section FrameFacts.
Context `{GoRuntime}.

(** C10.  One call of [collectMetrics] touches the store at the key it
    derives for the exchange and nowhere else: every other key maps to what
    it mapped to before, no key is removed, and a series already filed under
    the derived key keeps its name, kind and labels. *)
Theorem collectMetrics_frame c ord req resp (store : MetricsStore) :
  (∀ k, k ≠ metricKeyOf c ord req resp →
        collectMetrics c ord req resp store !! k = store !! k) ∧
  (∀ k, is_Some (store !! k) →
        is_Some (collectMetrics c ord req resp store !! k)) ∧
  (∀ metric,
     store !! metricKeyOf c ord req resp = Some metric →
     ∃ metric',
       collectMetrics c ord req resp store !! metricKeyOf c ord req resp
       = Some metric' ∧
       Name metric' = Name metric ∧ Type_ metric' = Type_ metric ∧
       Labels metric' = Labels metric).
Proof.
  split_and!.
  - intros k Hne. by apply collectMetrics_lookup_ne.
  - intros k Hk. rewrite collectMetrics_insert, lookup_insert.
    case_decide; [by eexists | done].
  - intros metric Hm. eexists. split; [apply collectMetrics_lookup_key|].
    rewrite Hm. simpl.
    by rewrite updateValue_Name, updateValue_Type, updateValue_Labels.
Qed.

End FrameFacts.

(** * Further properties *)

(** ** Runs of the plugin, series by series *)

Section RunFacts.
Context `{GoRuntime}.

Lemma run_cons c x xs (store : MetricsStore) :
  run c (x :: xs) store = run c xs (observe c store x).
Proof. done. Qed.

Lemma observe_lookup_key c (store : MetricsStore) x :
  observe c store x !! keyOfExchange c x =
  Some (updateValue c (xreq x) (xresp x)
          (default (newMetric c (exchangeLabels c x))
                   (store !! keyOfExchange c x))).
Proof. apply collectMetrics_lookup_key. Qed.

Lemma observe_lookup_ne c (store : MetricsStore) x k :
  keyOfExchange c x ≠ k → observe c store x !! k = store !! k.
Proof. intros Hne. apply collectMetrics_lookup_ne. done. Qed.

Lemma filedUnder_cons_eq c x xs :
  filedUnder c (keyOfExchange c x) (x :: xs)
  = x :: filedUnder c (keyOfExchange c x) xs.
Proof. unfold filedUnder. by rewrite filter_cons_True. Qed.

Lemma filedUnder_cons_ne c k x xs :
  keyOfExchange c x ≠ k → filedUnder c k (x :: xs) = filedUnder c k xs.
Proof. intros Hne. unfold filedUnder. by rewrite filter_cons_False. Qed.

(** X1.  The series of a store are never removed, and a run adds exactly
    the keys its exchanges are filed under: after the run, a key holds a
    series when it held one before or an exchange of the run was filed
    under it; so a run of [n] exchanges adds at most [n] series. *)
Theorem run_series_keys c xs (store : MetricsStore) :
  (∀ k, is_Some (run c xs store !! k)
        ↔ is_Some (store !! k) ∨ k ∈ keyOfExchange c <$> xs) ∧
  (size (run c xs store) ≤ size store + length xs)%nat.
Proof.
  revert store. induction xs as [|x xs IH]; intros store.
  - split; [|simpl; lia]. intros k. rewrite elem_of_nil. naive_solver.
  - rewrite run_cons. destruct (IH (observe c store x)) as [IHk IHsz].
    assert (∀ k, is_Some (observe c store x !! k)
                 ↔ is_Some (store !! k) ∨ k = keyOfExchange c x) as Hstep.
    { intros k. destruct (decide (keyOfExchange c x = k)) as [<-|Hne].
      - rewrite observe_lookup_key. naive_solver.
      - rewrite observe_lookup_ne by done. naive_solver. }
    split.
    + intros k. rewrite IHk, Hstep, fmap_cons, elem_of_cons. naive_solver.
    + assert (size (observe c store x) ≤ S (size store))%nat as Hsz.
      { unfold observe. rewrite collectMetrics_insert.
        destruct (store !! metricKeyOf c (xord x) (xreq x) (xresp x)) eqn:Hk.
        - erewrite map_size_insert_Some by done. lia.
        - rewrite map_size_insert_None by done. lia. }
      simpl. lia.
Qed.

Lemma incremented_succ n v :
  incremented n (v + 1)%float = incremented (S n) v.
Proof.
  unfold incremented. symmetry.
  exact (Nat.iter_succ_r n (λ v, v + 1)%float v).
Qed.

Lemma run_counter_filed c xs (store : MetricsStore) k :
  metricType c = MetricTypeCounter →
  Value <$> run c xs store !! k =
  match filedUnder c k xs with
  | [] => Value <$> store !! k
  | filed => Some (incremented (length filed)
                     (default 0%float (Value <$> store !! k)))
  end.
Proof.
  intros Hkind. revert store.
  induction xs as [|x xs IH]; intros store; [done|].
  rewrite run_cons, IH.
  destruct (decide (keyOfExchange c x = k)) as [<-|Hne].
  - rewrite filedUnder_cons_eq.
    assert (Value <$> observe c store x !! keyOfExchange c x
            = Some (default 0 (Value <$> store !! keyOfExchange c x) + 1)%float)
      as Hstep by (by apply counter_increments).
    rewrite Hstep. cbn [default length].
    destruct (filedUnder c (keyOfExchange c x) xs) as [|y filed]; [done|].
    unfold id. by rewrite incremented_succ.
  - rewrite filedUnder_cons_ne, observe_lookup_ne by done. done.
Qed.

(** X2.  Under the counter kind the value of a series counts the exchanges
    filed under its key: after any run, mixed over any number of series,
    the series at [k] holds its former value (0 for a new series)
    incremented once for each exchange of the run filed under [k], and is
    untouched when there is none. *)
Theorem counter_counts_filed c xs (store : MetricsStore) k :
  metricType c = MetricTypeCounter →
  Value <$> run c xs store !! k =
  match filedUnder c k xs with
  | [] => Value <$> store !! k
  | filed => Some (incremented (length filed)
                     (default 0%float (Value <$> store !! k)))
  end.
Proof. apply run_counter_filed. Qed.

Lemma gauge_sets c (store : MetricsStore) x :
  isGaugeKind (metricType c) →
  Value <$> observe c store x !! keyOfExchange c x
  = Some (exchangeValue c x).
Proof.
  intros Hkind. rewrite observe_lookup_key, updateValue_gauge by done. done.
Qed.

(** X3.  Under the gauge and histogram kinds the last write wins, series
    by series: after any run the series at [k] holds the numeric value of
    the last exchange of the run filed under [k], whatever was observed
    before or in between under other keys, and is untouched when no
    exchange was filed under [k]. *)
Theorem gauge_last_write_wins c xs (store : MetricsStore) k :
  isGaugeKind (metricType c) →
  Value <$> run c xs store !! k =
  match last (filedUnder c k xs) with
  | Some x => Some (exchangeValue c x)
  | None => Value <$> store !! k
  end.
Proof.
  intros Hkind. revert store.
  induction xs as [|x xs IH]; intros store; [done|].
  rewrite run_cons, IH.
  destruct (decide (keyOfExchange c x = k)) as [<-|Hne].
  - rewrite filedUnder_cons_eq, gauge_sets by done.
    destruct (filedUnder c (keyOfExchange c x) xs) as [|y filed] eqn:Hf;
      [done|].
    change (last (x :: y :: filed)) with (last (y :: filed)).
    destruct (last (y :: filed)) eqn:Hl; [done|]. by apply last_None in Hl.
  - rewrite filedUnder_cons_ne, observe_lookup_ne by done. done.
Qed.

(** X4.  A series keeps the labels it was created with: after any run the
    labels at [k] are those the store held there before, or, for a series
    the run created, the labels of the first exchange of the run filed
    under [k]; later exchanges filed under the key leave them alone. *)
Theorem series_labels_of_first c xs (store : MetricsStore) k :
  Labels <$> run c xs store !! k =
  match store !! k with
  | Some metric => Some (Labels metric)
  | None => exchangeLabels c <$> head (filedUnder c k xs)
  end.
Proof.
  revert store. induction xs as [|x xs IH]; intros store.
  - simpl. by destruct (store !! k).
  - rewrite run_cons, IH.
    destruct (decide (keyOfExchange c x = k)) as [<-|Hne].
    + rewrite filedUnder_cons_eq, observe_lookup_key, updateValue_Labels.
      by destruct (store !! keyOfExchange c x).
    + rewrite filedUnder_cons_ne, observe_lookup_ne by done. done.
Qed.

(** X5.  A metric kind that is none of counter, histogram, gauge makes
    [collectMetrics] create series and never update them: every series of
    every store reached from [New] has the value 0. *)
Theorem unknown_kind_stays_zero c (store : MetricsStore) :
  metricType c ≠ MetricTypeCounter → ¬ isGaugeKind (metricType c) →
  reachable c store →
  ∀ k metric, store !! k = Some metric → Value metric = 0%float.
Proof.
  intros Hnc Hng Hr. induction Hr as [|store x _ IH _].
  - intros k metric Hk. by rewrite lookup_empty in Hk.
  - intros k metric. unfold observe.
    rewrite collectMetrics_insert, lookup_insert.
    case_decide as Hk; [|by apply IH]. intros [= <-].
    unfold updateValue. rewrite decide_False by done.
    rewrite decide_False by (unfold isGaugeKind in Hng; naive_solver).
    destruct (store !! metricKeyOf c (xord x) (xreq x) (xresp x)) eqn:Hold;
      simpl; [by eapply IH | done].
Qed.

(** X6.  Under the gauge and histogram kinds observing an exchange a second
    time changes nothing. *)
Theorem gauge_observe_idempotent c (store : MetricsStore) x :
  isGaugeKind (metricType c) →
  observe c (observe c store x) x = observe c store x.
Proof.
  intros Hkind. unfold observe.
  rewrite (collectMetrics_insert c _ _ _ (collectMetrics c _ _ _ store)).
  rewrite collectMetrics_lookup_key. cbn [default].
  rewrite !updateValue_gauge by done.
  rewrite collectMetrics_insert, insert_insert_eq.
  by rewrite updateValue_gauge.
Qed.

(** X7.  Exchanges filed under different keys commute: the store does not
    depend on which of the two [collectMetrics] calls took the lock
    first. *)
Theorem observe_commutes c (store : MetricsStore) x1 x2 :
  keyOfExchange c x1 ≠ keyOfExchange c x2 →
  observe c (observe c store x1) x2 = observe c (observe c store x2) x1.
Proof.
  intros Hne. unfold observe, keyOfExchange in *.
  rewrite (collectMetrics_insert c _ _ _ (collectMetrics c _ _ _ store)).
  rewrite (collectMetrics_insert c (xord x1) _ _
             (collectMetrics c _ _ _ store)).
  rewrite !collectMetrics_lookup_ne by done.
  rewrite !(collectMetrics_insert c _ _ _ store).
  by apply insert_insert_ne.
Qed.

End RunFacts.

(** ** Labels and keys *)

Section LabelKeyFacts.
Context `{GoRuntime}.

(** X8.  The labels of an exchange have exactly the configured header names
    as keys, however often a name is configured, and the label of a header
    is its value on the request when that is not empty and its value on the
    response otherwise (the empty string when it is on neither). *)
Theorem labels_resolution c req resp :
  (∀ h, collectLabels c req resp !! h =
        if decide (h ∈ metricHeaders c)
        then Some (if decide (Get req h = "") then Get resp h else Get req h)
        else None) ∧
  size (collectLabels c req resp) = length (remove_dups (metricHeaders c)).
Proof.
  split.
  - intros h. rewrite collectLabels_lookup. case_decide; [|done].
    unfold headerLabel. repeat case_decide; congruence.
  - rewrite <- size_dom, collectLabels_dom.
    rewrite <- (size_list_to_set (C := gset string)
                  (remove_dups (metricHeaders c)))
      by apply NoDup_remove_dups.
    f_equal. apply set_eq. intros h.
    by rewrite !elem_of_list_to_set, elem_of_remove_dups.
Qed.

Lemma append_longer (a b : string) : b ≠ "" → a ≠ a +:+ b.
Proof.
  intros Hb Heq. apply (f_equal String.length) in Heq.
  rewrite length_append in Heq. destruct b; [done | simpl in Heq; lia].
Qed.

Lemma createMetricKey_two h1 h2 v1 v2 metricName :
  h1 ≠ h2 →
  createMetricKey [h1; h2] metricName {[ h1 := v1; h2 := v2 ]}
  = metricName +:+ keySegment h1 v1 +:+ keySegment h2 v2.
Proof.
  intros Hne. unfold createMetricKey. cbn [foldl].
  rewrite lookup_total_insert_eq, lookup_total_insert_ne by done.
  rewrite lookup_total_singleton_eq. by rewrite append_assoc.
Qed.

(** X9.  The key does not tell label combinations apart: the separator of
    the key may occur in a header value, so an exchange with the labels
    [h1 = x], [h2 = y_h2_z] and one with the labels [h1 = x_h2_y],
    [h2 = z] are filed under one key.  The second exchange is then counted
    in the series of the first, which keeps the labels of the first. *)
Theorem key_collision c h1 h2 x y z xa xb :
  h1 ≠ h2 →
  xord xa = [h1; h2] → xord xb = [h1; h2] →
  exchangeLabels c xa
  = {[ h1 := x; h2 := y +:+ "_" +:+ h2 +:+ "_" +:+ z ]} →
  exchangeLabels c xb
  = {[ h1 := x +:+ "_" +:+ h2 +:+ "_" +:+ y; h2 := z ]} →
  exchangeLabels c xa ≠ exchangeLabels c xb ∧
  keyOfExchange c xa = keyOfExchange c xb ∧
  size (run c [xa; xb] ∅) = 1 ∧
  Labels <$> run c [xa; xb] ∅ !! keyOfExchange c xb
  = Some (exchangeLabels c xa).
Proof.
  intros Hne Hoa Hob Hla Hlb.
  assert (keyOfExchange c xa = keyOfExchange c xb) as Hkey.
  { unfold keyOfExchange, metricKeyOf. unfold exchangeLabels in Hla, Hlb.
    rewrite Hla, Hlb, Hoa, Hob.
    rewrite !map_size_insert_None by (by rewrite lookup_singleton_ne).
    rewrite !decide_True by lia.
    rewrite !createMetricKey_two by done. unfold keySegment.
    by rewrite !append_assoc. }
  split_and!; [|done| |].
  - rewrite Hla, Hlb. intros Heq.
    apply (f_equal (λ m : gmap string string, m !! h1)) in Heq.
    rewrite !lookup_insert_eq in Heq. injection Heq as Heq.
    by apply append_longer in Heq.
  - unfold run. cbn [foldl]. unfold observe at 1.
    rewrite collectMetrics_insert. fold (keyOfExchange c xb).
    rewrite <- Hkey. unfold observe, keyOfExchange.
    rewrite collectMetrics_insert, lookup_empty, insert_empty.
    rewrite insert_singleton_eq. apply map_size_singleton.
  - unfold run. cbn [foldl]. rewrite observe_lookup_key.
    cbn [fmap option_fmap option_map]. rewrite updateValue_Labels.
    rewrite <- Hkey, observe_lookup_key. cbn [from_option id].
    by rewrite updateValue_Labels, lookup_empty.
Qed.

End LabelKeyFacts.

(** ** The response writer and [ServeHTTP] *)

Section ServeFacts.
Context `{GoRuntime}.

Lemma applyOp_header rw op :
  recHeader (ResponseWriter (applyOp rw op))
  = headerAfter (recHeader (ResponseWriter rw)) [op].
Proof.
  destruct rw as [rec written].
  destruct op; try done; by destruct written.
Qed.

Lemma applyOps_header rw ops :
  recHeader (ResponseWriter (foldl applyOp rw ops))
  = headerAfter (recHeader (ResponseWriter rw)) ops.
Proof.
  revert rw. induction ops as [|op ops IH]; intros rw; [done|].
  cbn [foldl]. by rewrite IH, applyOp_header.
Qed.

Lemma applyOps_calls rw ops :
  recCalls (ResponseWriter (foldl applyOp rw ops))
  = (recCalls (ResponseWriter rw) ++
     if headerWritten rw then CallWrite <$> writesOf ops
     else match statusOf ops with
          | Some statusCode =>
              CallWriteHeader statusCode :: (CallWrite <$> writesOf ops)
          | None => []
          end)%list ∧
  headerWritten (foldl applyOp rw ops)
  = headerWritten rw || bool_decide (is_Some (statusOf ops)).
Proof.
  revert rw. induction ops as [|op ops IH]; intros rw.
  - simpl. destruct (headerWritten rw); by rewrite ?app_nil_r.
  - cbn [foldl]. destruct (IH (applyOp rw op)) as [IHc IHw].
    rewrite IHc, IHw. unfold statusOf, writesOf in *.
    destruct rw as [rec written].
    destruct op, written; cbn -[bool_decide]; by rewrite <- ?app_assoc.
Qed.

(** X10.  The response writer lets one status through: whatever calls a
    handler makes on it, the host's writer receives one [WriteHeader], with
    the status of the handler's first [WriteHeader], or 200 when a [Write]
    came first, followed by the handler's writes in their order and nothing
    else; and it receives nothing when the handler neither wrote nor set a
    status. *)
Theorem responseWriter_one_status rec ops :
  recCalls (ResponseWriter
              (foldl applyOp {| ResponseWriter := rec;
                                headerWritten := false |} ops))
  = (recCalls rec ++
     match statusOf ops with
     | Some statusCode =>
         CallWriteHeader statusCode :: (CallWrite <$> writesOf ops)
     | None => []
     end)%list.
Proof. by destruct (applyOps_calls {| ResponseWriter := rec;
                                      headerWritten := false |} ops). Qed.

Lemma headerAfter_writes h ops :
  Forall isWriteOp ops → headerAfter h ops = h.
Proof.
  intros Hall. revert h. induction Hall as [|op ops Hop _ IH]; intros h;
    [done|].
  cbn [headerAfter foldl]. destruct op; try done; apply IH.
Qed.

Lemma headerAfter_app h ops ops' :
  headerAfter h (ops ++ ops') = headerAfter (headerAfter h ops) ops'.
Proof. apply foldl_app. Qed.

Lemma headerAfter_set h key value ops :
  headerAfter h (OpSet key value :: ops)
  = headerAfter (HeaderSet h key value) ops.
Proof. done. Qed.

Lemma Get_HeaderSet h key value : Get (HeaderSet h key value) key = value.
Proof. unfold Get, HeaderSet. by rewrite lookup_insert_eq. Qed.

(** X11.  [ServeHTTP] observes the exchange once, after the downstream
    handler has run, with the header map of the response as the handler
    left it: a configured header that the request does not carry and that
    the handler sets last of its header calls, before or after it wrote
    the status, becomes the label of the exchange. *)
Theorem ServeHTTP_collects_after_handler c next ord rw req
    (store : MetricsStore) :
  (ServeHTTP c next ord rw req store).2
  = collectMetrics c ord req (headerAfter (recHeader rw) (next req)) store ∧
  recHeader (ServeHTTP c next ord rw req store).1
  = headerAfter (recHeader rw) (next req) ∧
  (∀ pre key value post,
     next req = (pre ++ OpSet key value :: post)%list →
     Forall isWriteOp post →
     key ∈ metricHeaders c → Get req key = "" →
     collectLabels c req (recHeader (ServeHTTP c next ord rw req store).1)
       !! key = Some value).
Proof.
  unfold ServeHTTP. cbn [fst snd]. rewrite applyOps_header. cbn.
  split_and!; [done | done |].
  intros pre key value post Hops Hpost Hkey Hreq.
  rewrite collectLabels_lookup, decide_True by done.
  unfold headerLabel. rewrite Hreq, decide_True by done.
  rewrite Hops, headerAfter_app, headerAfter_set.
  rewrite headerAfter_writes, Get_HeaderSet by done.
  case_decide; congruence.
Qed.

End ServeFacts.

(** ** [Stop] *)

Section StopFacts.

Lemma lifecycleStep_blocked s ev s' :
  ev ≠ EvListenerError → stopBlocked s → lifecycleStep s ev = Some s' →
  stopBlocked s'.
Proof.
  intros Hev (Hstop & Hserve & Hstopped & Hclosed) Hstep.
  destruct s as [sp gp a b cl]. simpl in *. subst.
  destruct ev; [| |done]; destruct Hstop as [-> | ->]; simpl in Hstep;
    simplify_eq; unfold stopBlocked; simpl; naive_solver.
Qed.

Lemma lifecycleRun_blocked s evs s' :
  EvListenerError ∉ evs → stopBlocked s → lifecycleRun s evs = Some s' →
  stopBlocked s'.
Proof.
  revert s. induction evs as [|ev evs IH]; intros s Hevs Hs Hrun.
  - simpl in Hrun. by simplify_eq.
  - apply not_elem_of_cons in Hevs as [Hev Hevs]. simpl in Hrun.
    destruct (lifecycleStep s ev) as [s1|] eqn:Hstep; [|done].
    eapply IH; [done | | done].
    eapply lifecycleStep_blocked; [| done | done]. congruence.
Qed.

(** X12.  [Stop] waits for the goroutine before it closes the server, and
    the goroutine waits for the server to be closed: as long as [Serve]
    does not return on an error of the listener, no interleaving of the
    two lets [Stop] pass its receive from [serverStopped]; the server is
    never closed and [Stop] never returns.  After an error of the listener
    [Stop] does return. *)
Theorem Stop_never_returns :
  (∀ evs s,
     EvListenerError ∉ evs → lifecycleRun lifecycleStart evs = Some s →
     (stopPc s = StopCalled ∨ stopPc s = StopWaiting) ∧
     servePc s = Serving ∧ serverClosed s = false) ∧
  lifecycleRun lifecycleStart
    [EvStop; EvListenerError; EvServe; EvStop; EvStop]
  = Some {| stopPc := StopReturned; servePc := ServeExited;
            serverStopClosed := true; serverStoppedClosed := true;
            serverClosed := true |}.
Proof.
  split; [|done]. intros evs s Hevs Hrun.
  destruct (lifecycleRun_blocked lifecycleStart evs s Hevs) as (? & ? & _ & ?);
    [|done|done].
  unfold stopBlocked, lifecycleStart. simpl. naive_solver.
Qed.

End StopFacts.

(** ** The single-series variant *)

Section SingleSeriesFacts.
Context `{GoRuntime}.

Lemma SingleSeries_New_inr listen config name c (store : MetricsStore) :
  SingleSeries.New listen config name = inr (c, store) →
  metricHeaders c ≠ [] ∧ store = {[ metricName c := singleMetric c 0 ]}.
Proof.
  unfold SingleSeries.New. case_decide as Hlen; [done|].
  destruct (startMetricsServer listen (pluginOf config name)); [done|].
  intros [= <- <-]. split; [|done]. simpl. by destruct (MetricHeaders config).
Qed.

Lemma SingleSeries_collect_single c req v :
  metricHeaders c ≠ [] →
  SingleSeries.collectMetrics c req {[ metricName c := singleMetric c v ]}
  = {[ metricName c := singleMetric c (singleStep c v req) ]}.
Proof.
  intros Hne. unfold SingleSeries.collectMetrics, singleStep.
  rewrite decide_False by (by destruct (metricHeaders c)).
  rewrite lookup_singleton_eq.
  destruct (decide (metricType c = MetricTypeCounter)).
  - destruct (SingleSeries.anyHeader req (metricHeaders c)); [|done].
    by rewrite alter_singleton_eq.
  - unfold isGaugeKind.
    destruct (decide (metricType c = MetricTypeHistogram
                      ∨ metricType c = MetricTypeGauge)) as [Hk|Hk].
    + rewrite decide_True by naive_solver. by rewrite alter_singleton_eq.
    + by rewrite decide_False by naive_solver.
Qed.

Lemma SingleSeries_run_single c reqs v :
  metricHeaders c ≠ [] →
  SingleSeriesRun.run c reqs {[ metricName c := singleMetric c v ]}
  = {[ metricName c := singleMetric c (foldl (singleStep c) v reqs) ]}.
Proof.
  intros Hne. revert v. induction reqs as [|req reqs IH]; intros v; [done|].
  unfold SingleSeriesRun.run in *. cbn [foldl].
  by rewrite SingleSeries_collect_single, IH.
Qed.

(** The counter loop finds a header exactly when some configured header has
    a value on the request that is not empty. *)
Lemma anyHeader_Exists req names :
  SingleSeries.anyHeader req names = true
  ↔ Exists (λ h, Get req h ≠ "") names.
Proof.
  induction names as [|h names IH]; cbn [SingleSeries.anyHeader].
  - rewrite Exists_nil. naive_solver.
  - rewrite Exists_cons. case_decide; naive_solver.
Qed.

Lemma singleStep_counter c reqs v :
  metricType c = MetricTypeCounter →
  foldl (singleStep c) v reqs
  = incremented (length (withHeaderSet c reqs)) v.
Proof.
  intros Hkind. revert v. induction reqs as [|req reqs IH]; intros v; [done|].
  cbn [foldl]. rewrite IH. unfold singleStep, withHeaderSet.
  rewrite decide_True by done.
  destruct (SingleSeries.anyHeader req (metricHeaders c)) eqn:Hany.
  - rewrite filter_cons_True by (by apply anyHeader_Exists). cbn [length].
    by rewrite incremented_succ.
  - rewrite filter_cons_False; [done|].
    rewrite <- anyHeader_Exists, Hany. done.
Qed.

Lemma singleStep_gauge c reqs v :
  isGaugeKind (metricType c) →
  foldl (singleStep c) v reqs
  = match last reqs with
    | Some req => SingleSeriesRun.requestValue c req
    | None => v
    end.
Proof.
  intros Hkind. revert v. induction reqs as [|req reqs IH]; intros v; [done|].
  cbn [foldl]. rewrite IH. unfold singleStep.
  rewrite decide_False by (destruct Hkind as [Hk|Hk]; by rewrite Hk).
  rewrite decide_True by done.
  destruct reqs as [|req' reqs]; [done|].
  change (last (req :: req' :: reqs)) with (last (req' :: reqs)).
  destruct (last (req' :: reqs)) eqn:Hl; [done|]. by apply last_None in Hl.
Qed.

(** X13.  The store of the single-series variant keeps its shape: after
    any sequence of requests it holds the one metric that [New] filed under
    the metric name, with the configured name and kind and no labels; no
    request adds or removes a series, and the rendering is its HELP line,
    its TYPE line and its value line. *)
Theorem single_series_one_metric listen config name c
    (store : MetricsStore) reqs :
  SingleSeries.New listen config name = inr (c, store) →
  ∃ v,
    SingleSeriesRun.run c reqs store
    = {[ metricName c := singleMetric c v ]} ∧
    ∀ sord,
      range_order (SingleSeriesRun.run c reqs store) sord →
      SingleSeriesRun.renderLines sord (SingleSeriesRun.run c reqs store)
      = [HelpLine (metricName c); TypeLine (metricName c) (metricType c);
         DataLine (metricName c) v].
Proof.
  intros [Hne ->]%SingleSeries_New_inr.
  exists (foldl (singleStep c) 0%float reqs).
  rewrite SingleSeries_run_single by done. split; [done|].
  intros sord Hsord. unfold range_order in Hsord.
  rewrite map_to_list_singleton in Hsord.
  apply Permutation_singleton_r in Hsord. subst sord.
  unfold SingleSeriesRun.renderLines. cbn [SingleSeriesRun.renderLoop fmap
    list_fmap fst]. by rewrite lookup_singleton_eq.
Qed.

(** X14.  Under the counter kind the single-series variant counts the
    requests that carry a configured header, that is the requests on which
    some configured header has a value that is not empty, each once however
    many of the configured headers it carries, and no others. *)
Theorem single_series_counts_requests listen config name c
    (store : MetricsStore) reqs :
  SingleSeries.New listen config name = inr (c, store) →
  metricType c = MetricTypeCounter →
  Value <$> SingleSeriesRun.run c reqs store !! metricName c
  = Some (incremented (length (withHeaderSet c reqs)) 0%float).
Proof.
  intros [Hne ->]%SingleSeries_New_inr Hkind.
  rewrite SingleSeries_run_single, lookup_singleton_eq by done.
  by rewrite singleStep_counter.
Qed.

(** X15.  Under the gauge and histogram kinds the single-series variant
    holds the value read from the last request: the first configured header
    of the request that parses, the response not being looked at, or 1;
    and 0 as long as no request has come. *)
Theorem single_series_last_request listen config name c
    (store : MetricsStore) reqs :
  SingleSeries.New listen config name = inr (c, store) →
  isGaugeKind (metricType c) →
  Value <$> SingleSeriesRun.run c reqs store !! metricName c
  = Some (match last reqs with
          | Some req => default 1%float (scanHeaders req (metricHeaders c))
          | None => 0%float
          end).
Proof.
  intros [Hne ->]%SingleSeries_New_inr Hkind.
  rewrite SingleSeries_run_single, lookup_singleton_eq by done.
  rewrite singleStep_gauge by done.
  destruct (last reqs); [|done]. unfold SingleSeriesRun.requestValue.
  by destruct (scanHeaders _ _).
Qed.

End SingleSeriesFacts.

(** ** One configured header *)

Section SingleHeaderFacts.
Context `{GoRuntime}.

Lemma filter_ext_Forall {A} (P Q : A → Prop)
    `{∀ x, Decision (P x)} `{∀ x, Decision (Q x)} (l : list A) :
  Forall (λ x, P x ↔ Q x) l → filter P l = filter Q l.
Proof.
  induction 1 as [|x l Hx _ IH]; [done|].
  destruct (decide (P x)) as [HP|HP].
  - rewrite !filter_cons_True by naive_solver. by rewrite IH.
  - rewrite !filter_cons_False by naive_solver. done.
Qed.

Lemma keyOfExchange_single_header c h x :
  metricHeaders c = [h] → exchange_ok c x →
  keyOfExchange c x
  = metricName c +:+ keySegment h (headerLabel (xreq x) (xresp x) h).
Proof.
  intros Hh Hok. destruct x as [req resp ord]. unfold keyOfExchange.
  cbn [xreq xresp xord].
  rewrite (metricKeyOf_single_header c h) by done.
  unfold specSeriesKey. by rewrite Hh.
Qed.

Lemma filedUnder_single_header c h v xs :
  metricHeaders c = [h] → Forall (exchange_ok c) xs →
  filedUnder c (metricName c +:+ keySegment h v) xs = withLabel h v xs.
Proof.
  intros Hh Hall. unfold filedUnder, withLabel.
  apply filter_ext_Forall. eapply Forall_impl; [exact Hall|].
  intros x Hok. cbv beta. rewrite (keyOfExchange_single_header c h) by done.
  split; [|by intros ->]. unfold keySegment. intros Heq.
  by repeat apply String.app_inj in Heq.
Qed.

(** X16.  With one configured header the series are the header values:
    under the counter kind, after any run from the store of [New], the
    series of the value [v] counts exactly the exchanges of the run whose
    label is [v], and there is no series for a value no exchange had. *)
Theorem single_header_counts_by_value c h v xs :
  metricHeaders c = [h] → metricType c = MetricTypeCounter →
  Forall (exchange_ok c) xs →
  Value <$> run c xs ∅ !! (metricName c +:+ keySegment h v) =
  match withLabel h v xs with
  | [] => None
  | filed => Some (incremented (length filed) 0%float)
  end.
Proof.
  intros Hh Hkind Hall.
  rewrite run_counter_filed, filedUnder_single_header by done.
  by rewrite lookup_empty.
Qed.

End SingleHeaderFacts.

(** * The plugin on concrete exchanges

    The configurations of the repository's tests, run on the example
    runtime. *)

Import Example.

Lemma testLabels_collected :
  collectLabels testCounter testRequest ∅ = testLabels.
Proof. vm_reflexivity. Qed.

Lemma testLabels_configured :
  range_order testLabels ["X-User-ID"; "X-Request-Size"].
Proof. range_order_by_computation. Qed.

Lemma testLabels_swapped :
  range_order testLabels ["X-Request-Size"; "X-User-ID"].
Proof. range_order_by_computation. Qed.

(** C1.  [createMetricKey] follows the order of its range over the label
    map, not the configured header order: for the labels of the test
    request, the two orders in which the range can visit the map give two
    keys, of which one is the key of the specification. *)
Theorem createMetricKey_follows_range_order :
  collectLabels testCounter testRequest ∅ = testLabels ∧
  range_order testLabels ["X-User-ID"; "X-Request-Size"] ∧
  range_order testLabels ["X-Request-Size"; "X-User-ID"] ∧
  createMetricKey ["X-User-ID"; "X-Request-Size"] "test_counter" testLabels
  = "test_counter_X-User-ID_user123_X-Request-Size_1024" ∧
  createMetricKey ["X-Request-Size"; "X-User-ID"] "test_counter" testLabels
  = "test_counter_X-Request-Size_1024_X-User-ID_user123" ∧
  specSeriesKey testCounter testRequest ∅
  = "test_counter_X-User-ID_user123_X-Request-Size_1024".
Proof.
  split_and!.
  - apply testLabels_collected.
  - apply testLabels_configured.
  - apply testLabels_swapped.
  - vm_reflexivity.
  - vm_reflexivity.
  - vm_reflexivity.
Qed.

(** C2.  Two exchanges that resolve to one label combination, counted by a
    counter: when the ranges of the two calls visit the labels in different
    orders the exchanges are filed under two keys, and the store ends with
    two series of value 1 instead of one series of value 2. *)
Theorem counter_split_by_range_order :
  exchange_ok testCounter exchangeConfigured ∧
  exchange_ok testCounter exchangeSwapped ∧
  collectLabels testCounter (xreq exchangeConfigured) (xresp exchangeConfigured)
  = collectLabels testCounter (xreq exchangeSwapped) (xresp exchangeSwapped) ∧
  run testCounter [exchangeConfigured; exchangeSwapped] ∅
  = {[ "test_counter_X-User-ID_user123_X-Request-Size_1024" := testSeries 1;
       "test_counter_X-Request-Size_1024_X-User-ID_user123" := testSeries 1 ]} ∧
  run testCounter [exchangeConfigured; exchangeConfigured] ∅
  = {[ "test_counter_X-User-ID_user123_X-Request-Size_1024"
       := testSeries 2 ]}.
Proof.
  split_and!.
  - unfold exchange_ok. simpl. rewrite testLabels_collected.
    apply testLabels_configured.
  - unfold exchange_ok. simpl. rewrite testLabels_collected.
    apply testLabels_swapped.
  - reflexivity.
  - vm_reflexivity.
  - vm_reflexivity.
Qed.

(** The numeric scan goes through the whole request before it looks at the
    response, while a label takes the response value of its own header: with
    [X-Response-ID: 7] on the response and [X-User-ID: 5] on the request,
    the gauge reads 5 though the first configured header resolves to 7. *)
Lemma numeric_scan_request_first :
  let c := withKind MetricTypeGauge
             {| metricHeaders := ["X-Response-ID"; "X-User-ID"];
                metricName := "combined_test"; metricType := "";
                metricsPort := 8083; name := "combined-test-plugin" |} in
  let req : Header := {[ "X-User-Id" := ["5"] ]} in
  let resp : Header := {[ "X-Response-Id" := ["7"] ]} in
  collectLabels c req resp = {[ "X-Response-ID" := "7"; "X-User-ID" := "5" ]} ∧
  getNumericValueFromHeaders c req resp = 5%float.
Proof. split; vm_reflexivity. Qed.

(** ** Renderings *)

Lemma splitStore_run :
  run testCounter [exchangeConfigured; exchangeSwapped] ∅ = splitStore.
Proof. vm_reflexivity. Qed.

Lemma splitStore_reachable : reachable testCounter splitStore.
Proof.
  rewrite <- splitStore_run. apply reachable_run; [apply reachable_New|].
  repeat (apply Forall_cons; split; [|]); [| |apply Forall_nil_2];
    unfold exchange_ok; simpl; rewrite testLabels_collected.
  - apply testLabels_configured.
  - apply testLabels_swapped.
Qed.

Lemma splitStore_series k metric :
  splitStore !! k = Some metric →
  Name metric = "test_counter" ∧ Labels metric = testLabels.
Proof.
  intros Hk. unfold splitStore in Hk. rewrite lookup_insert in Hk.
  case_decide; [by simplify_eq|].
  by apply lookup_singleton_Some in Hk as [_ <-].
Qed.

Lemma injectedStore_ServeHTTP :
  (ServeHTTP responseCounter injectingHandler ["X-Response-ID"]
     {| recHeader := ∅; recCalls := [] |} ∅ ∅).2
  = injectedStore.
Proof. vm_reflexivity. Qed.

Lemma injectedStore_reachable : reachable responseCounter injectedStore.
Proof.
  assert (observe responseCounter ∅ injectedExchange = injectedStore) as <-
    by vm_reflexivity.
  apply reachable_collect; [apply reachable_New|].
  unfold exchange_ok. range_order_by_computation.
Qed.

(** C4.  The rendered text does not have one data line for each series and
    one HELP and one TYPE line for each metric name on every store a plugin
    reaches.  The two exchanges of the test that were filed under two keys
    are one label combination, and the text has its data line twice.  A
    label value is written as it is: after an exchange whose response
    header holds line feeds the store has one series, and the text has two
    HELP lines and two TYPE lines for its metric name and no line that is
    the data line of the series. *)
Theorem render_completeness_fails :
  run testCounter [exchangeConfigured; exchangeSwapped] ∅ = splitStore ∧
  reachable testCounter splitStore ∧
  render_order splitStore
    ["test_counter_X-User-ID_user123_X-Request-Size_1024";
     "test_counter_X-Request-Size_1024_X-User-ID_user123"]
    (λ _, ["X-User-ID"; "X-Request-Size"]) ∧
  (∀ k metric,
     splitStore !! k = Some metric →
     Name metric = "test_counter" ∧ Labels metric = testLabels) ∧
  textLines
    (renderPrometheusFormat
       ["test_counter_X-User-ID_user123_X-Request-Size_1024";
        "test_counter_X-Request-Size_1024_X-User-ID_user123"]
       (λ _, ["X-User-ID"; "X-Request-Size"]) splitStore)
  = ["# HELP test_counter Custom metric based on HTTP headers";
     "# TYPE test_counter counter"; testLine; testLine; ""] ∧
  dataLinesOf
    (renderPrometheusFormat
       ["test_counter_X-User-ID_user123_X-Request-Size_1024";
        "test_counter_X-Request-Size_1024_X-User-ID_user123"]
       (λ _, ["X-User-ID"; "X-Request-Size"]) splitStore)
  = [testLine; testLine] ∧
  (ServeHTTP responseCounter injectingHandler ["X-Response-ID"]
     {| recHeader := ∅; recCalls := [] |} ∅ ∅).2
  = injectedStore ∧
  reachable responseCounter injectedStore ∧
  size injectedStore = 1 ∧
  render_order injectedStore
    ["r_X-Response-ID_" +:+ injectedValue] (λ _, ["X-Response-ID"]) ∧
  textLines
    (renderPrometheusFormat
       ["r_X-Response-ID_" +:+ injectedValue] (λ _, ["X-Response-ID"])
       injectedStore)
  = ["# HELP r Custom metric based on HTTP headers";
     "# TYPE r counter";
     "r{X-Response-ID=" +:+ dquote +:+ "resp123";
     "# HELP r injected";
     "# TYPE r gauge" +:+ dquote +:+ "} 1";
     ""] ∧
  helpLinesOf
    (renderPrometheusFormat
       ["r_X-Response-ID_" +:+ injectedValue] (λ _, ["X-Response-ID"])
       injectedStore)
  = ["# HELP r Custom metric based on HTTP headers"; "# HELP r injected"] ∧
  typeLinesOf
    (renderPrometheusFormat
       ["r_X-Response-ID_" +:+ injectedValue] (λ _, ["X-Response-ID"])
       injectedStore)
  = ["# TYPE r counter"; "# TYPE r gauge" +:+ dquote +:+ "} 1"].
Proof.
  split_and!.
  - exact splitStore_run.
  - exact splitStore_reachable.
  - split; [range_order_by_computation|].
    intros k metric Hk. apply splitStore_series in Hk as [_ ->].
    apply testLabels_configured.
  - exact splitStore_series.
  - vm_reflexivity.
  - vm_reflexivity.
  - exact injectedStore_ServeHTTP.
  - exact injectedStore_reachable.
  - vm_reflexivity.
  - split; [range_order_by_computation|].
    intros k metric Hk. unfold injectedStore in Hk.
    apply lookup_singleton_Some in Hk as [_ <-]. simpl.
    range_order_by_computation.
  - vm_reflexivity.
  - vm_reflexivity.
  - vm_reflexivity.
Qed.



(** ** Construction *)

(** C6, as stated, fails on a configuration whose metric kind is none of
    the three: [New] returns the plugin, and the series its observations
    create stay at 0. *)
Lemma New_accepts_unknown_kind :
  New (λ _, true) summaryConfig "plugin"
  = inr (pluginOf summaryConfig "plugin", ∅) ∧
  ¬ supportedKind (MetricType summaryConfig) ∧
  collectMetrics (pluginOf summaryConfig "plugin") ["X-User-ID"]
    testRequest ∅ ∅
  = {[ "requests_X-User-ID_user123" :=
         {| Name := "requests"; Type_ := "summary"; Value := 0%float;
            Labels := {[ "X-User-ID" := "user123" ]} |} ]}.
Proof.
  split_and!.
  - reflexivity.
  - unfold supportedKind. simpl. naive_solver.
  - vm_reflexivity.
Qed.

(** ** The theorems at concrete exchanges *)

Lemma sizeExchange_ok : exchange_ok sizeGauge sizeExchange.
Proof. unfold exchange_ok. range_order_by_computation. Qed.

Lemma sizeRequest_Get : Get sizeRequest "X-Size" = "1024".
Proof. vm_reflexivity. Qed.

Lemma ParseFloat_1024 : ParseFloat "1024" = Some 1024%float.
Proof. vm_reflexivity. Qed.

(** The scenario of C3 on the example runtime. *)
Lemma gauge_value_first_numeric_witness :
  isGaugeKind (metricType sizeGauge) ∧
  Get sizeRequest "X-Size" = "1024" ∧
  ParseFloat "1024" = Some 1024%float ∧
  collectMetrics sizeGauge ["X-Size"] sizeRequest ∅ ∅ =
  {[ "g_X-Size_1024" :=
       {| Name := "g"; Type_ := "gauge"; Value := 1024%float;
          Labels := {[ "X-Size" := "1024" ]} |} ]}.
Proof.
  assert (isGaugeKind (metricType sizeGauge)) as Hkind by (by left).
  split_and!;
    [exact Hkind | exact sizeRequest_Get | exact ParseFloat_1024 |].
  exact (proj2 gauge_value_first_numeric sizeGauge ["X-Size"] sizeRequest ∅
           Hkind eq_refl eq_refl sizeRequest_Get ParseFloat_1024
           sizeExchange_ok).
Defined.


(** With a header configured and the port taken, [New] returns the port
    error. *)
Lemma New_fails_on_empty_headers_witness :
  MetricHeaders summaryConfig ≠ [] ∧
  New (λ _, false) summaryConfig "plugin"
  = inl (ErrStartServer (ErrPortInUse 8081)).
Proof.
  assert (MetricHeaders summaryConfig ≠ []) as Hne by (simpl; discriminate).
  split; [exact Hne|].
  exact (proj1 (proj2 (New_fails_on_empty_headers
                         (λ _, false) summaryConfig "plugin")) Hne).
Defined.

Lemma bareExchange_ok : exchange_ok combinedGauge bareExchange.
Proof. unfold exchange_ok. range_order_by_computation. Qed.

Lemma bareExchange_allAbsent :
  allAbsent combinedGauge (xreq bareExchange) (xresp bareExchange).
Proof. intros h _. unfold Get. simpl. by rewrite lookup_empty. Qed.

(** The first exchange of a gauge, without headers. *)
Lemma missing_headers_default_witness :
  reachable combinedGauge ∅ ∧
  exchange_ok combinedGauge bareExchange ∧
  allAbsent combinedGauge (xreq bareExchange) (xresp bareExchange) ∧
  ∃ metric,
    observe combinedGauge ∅ bareExchange
    = {[ "combined_test_X-User-ID__X-Response-ID_" := metric ]} ∧
    emptyLabels combinedGauge (Labels metric) ∧
    Value metric = 1%float.
Proof.
  split_and!;
    [apply reachable_New | exact bareExchange_ok
     | exact bareExchange_allAbsent |].
  destruct (missing_headers_default combinedGauge ∅ bareExchange
              (reachable_New _) bareExchange_ok bareExchange_allAbsent)
    as (metric & _ & Hlabels & Hvalue & _ & Hstore).
  exists metric. split_and!.
  - exact (Hstore eq_refl).
  - exact Hlabels.
  - apply Hvalue. left. reflexivity.
Defined.

(** The scenario of C3 under the histogram kind. *)
Lemma histogram_updates_as_gauge_witness :
  isGaugeKind MetricTypeHistogram ∧
  Value <$> observe (withKind MetricTypeHistogram sizeGauge) ∅ sizeExchange
            !! "g_X-Size_1024"
  = Some 1024%float.
Proof.
  assert (isGaugeKind MetricTypeHistogram) as Hkind by (right; reflexivity).
  split; [exact Hkind|].
  pose proof (proj2 (proj2 (histogram_updates_as_gauge sizeGauge))
                MetricTypeHistogram ∅ sizeExchange Hkind) as Hvalue.
  vm_compute in Hvalue. vm_compute. exact Hvalue.
Defined.

(** The store of the test after its first exchange. *)
Lemma store_invariant_kept_witness :
  reachable testCounter (observe testCounter ∅ exchangeConfigured) ∧
  observe testCounter ∅ exchangeConfigured
    !! "test_counter_X-User-ID_user123_X-Request-Size_1024"
  = Some (testSeries 1) ∧
  Name (testSeries 1) = "test_counter" ∧
  Type_ (testSeries 1) = "counter" ∧
  ∀ h, h ∈ dom (Labels (testSeries 1)) ↔ h ∈ metricHeaders testCounter.
Proof.
  assert (exchange_ok testCounter exchangeConfigured) as Hok.
  { unfold exchange_ok. range_order_by_computation. }
  assert (reachable testCounter (observe testCounter ∅ exchangeConfigured))
    as Hr by (apply reachable_collect; [apply reachable_New | exact Hok]).
  assert (observe testCounter ∅ exchangeConfigured
            !! "test_counter_X-User-ID_user123_X-Request-Size_1024"
          = Some (testSeries 1)) as Hk by vm_reflexivity.
  split; [exact Hr | split; [exact Hk |]].
  exact (proj2 (proj2 (store_invariant_kept testCounter)) _ Hr _ _ Hk).
Defined.

Lemma twoUsers_run :
  run userCounter [userExchange "user456"; userExchange "user123"] ∅
  = twoUsers.
Proof. vm_reflexivity. Qed.

Lemma twoUsers_other_key :
  "c_X-User-ID_user456"
  ≠ metricKeyOf userCounter ["X-User-ID"] (xreq (userExchange "user123")) ∅.
Proof. vm_compute. discriminate. Qed.

Lemma twoUsers_at_key :
  twoUsers
    !! metricKeyOf userCounter ["X-User-ID"] (xreq (userExchange "user123")) ∅
  = Some (userSeries "user123" 1).
Proof. vm_reflexivity. Qed.

Lemma twoUsers_at_other_key :
  twoUsers !! "c_X-User-ID_user456" = Some (userSeries "user456" 1).
Proof. vm_reflexivity. Qed.

(** A third exchange, of [user123], on the store that holds the series of
    [user456] and of [user123]: the series of [user456] is what it was, and
    the series of [user123] keeps its name, kind and labels. *)
Lemma collectMetrics_frame_witness :
  run userCounter [userExchange "user456"; userExchange "user123"] ∅
  = twoUsers ∧
  "c_X-User-ID_user456"
  ≠ metricKeyOf userCounter ["X-User-ID"] (xreq (userExchange "user123")) ∅ ∧
  twoUsers !! "c_X-User-ID_user456" = Some (userSeries "user456" 1) ∧
  collectMetrics userCounter ["X-User-ID"] (xreq (userExchange "user123")) ∅
    twoUsers !! "c_X-User-ID_user456"
  = twoUsers !! "c_X-User-ID_user456" ∧
  is_Some
    (collectMetrics userCounter ["X-User-ID"]
       (xreq (userExchange "user123")) ∅ twoUsers
     !! "c_X-User-ID_user456") ∧
  twoUsers
    !! metricKeyOf userCounter ["X-User-ID"] (xreq (userExchange "user123")) ∅
  = Some (userSeries "user123" 1) ∧
  ∃ metric',
    collectMetrics userCounter ["X-User-ID"] (xreq (userExchange "user123")) ∅
      twoUsers
      !! metricKeyOf userCounter ["X-User-ID"]
           (xreq (userExchange "user123")) ∅
    = Some metric' ∧
    Name metric' = Name (userSeries "user123" 1) ∧
    Type_ metric' = Type_ (userSeries "user123" 1) ∧
    Labels metric' = Labels (userSeries "user123" 1).
Proof.
  destruct (collectMetrics_frame userCounter ["X-User-ID"]
              (xreq (userExchange "user123")) ∅ twoUsers)
    as (Hother & Hkept & Hsame).
  split_and!.
  - exact twoUsers_run.
  - exact twoUsers_other_key.
  - exact twoUsers_at_other_key.
  - exact (Hother _ twoUsers_other_key).
  - apply Hkept. rewrite twoUsers_at_other_key. by eexists.
  - exact twoUsers_at_key.
  - exact (Hsame _ twoUsers_at_key).
Defined.

(** ** The further properties at concrete exchanges *)

(** Three exchanges of the test, two of them filed under one key. *)
Lemma counter_counts_filed_witness :
  metricType testCounter = MetricTypeCounter ∧
  Value <$> run testCounter
              [exchangeConfigured; exchangeSwapped; exchangeConfigured] ∅
            !! "test_counter_X-User-ID_user123_X-Request-Size_1024"
  = Some 2%float.
Proof.
  split; [reflexivity|].
  pose proof (counter_counts_filed testCounter
                [exchangeConfigured; exchangeSwapped; exchangeConfigured] ∅
                "test_counter_X-User-ID_user123_X-Request-Size_1024"
                eq_refl) as Hvalue.
  vm_compute in Hvalue. vm_compute. exact Hvalue.
Defined.

Lemma sizeGauge_kind : isGaugeKind (metricType sizeGauge).
Proof. by left. Qed.

(** Two sizes under one series would need one key; each size has its own
    series, holding the size. *)
Lemma gauge_last_write_wins_witness :
  isGaugeKind (metricType sizeGauge) ∧
  Value <$> run sizeGauge [sizeExchange; largeExchange; sizeExchange] ∅
            !! "g_X-Size_1024"
  = Some 1024%float.
Proof.
  split; [exact sizeGauge_kind|].
  pose proof (gauge_last_write_wins sizeGauge
                [sizeExchange; largeExchange; sizeExchange] ∅
                "g_X-Size_1024" sizeGauge_kind) as Hvalue.
  vm_compute in Hvalue. vm_compute. exact Hvalue.
Defined.

Lemma summaryExchange_reachable :
  reachable (pluginOf summaryConfig "plugin")
    (observe (pluginOf summaryConfig "plugin") ∅ summaryExchange).
Proof.
  apply reachable_collect; [apply reachable_New|].
  unfold exchange_ok. range_order_by_computation.
Qed.

Lemma summaryExchange_lookup :
  observe (pluginOf summaryConfig "plugin") ∅ summaryExchange
    !! "requests_X-User-ID_user123"
  = Some {| Name := "requests"; Type_ := "summary"; Value := 0%float;
            Labels := {[ "X-User-ID" := "user123" ]} |}.
Proof. vm_reflexivity. Qed.

(** The series of a plugin of kind summary after an exchange. *)
Lemma unknown_kind_stays_zero_witness :
  metricType (pluginOf summaryConfig "plugin") ≠ MetricTypeCounter ∧
  ¬ isGaugeKind (metricType (pluginOf summaryConfig "plugin")) ∧
  reachable (pluginOf summaryConfig "plugin")
    (observe (pluginOf summaryConfig "plugin") ∅ summaryExchange) ∧
  Value {| Name := "requests"; Type_ := "summary"; Value := 0%float;
           Labels := {[ "X-User-ID" := "user123" ]} |} = 0%float.
Proof.
  assert (metricType (pluginOf summaryConfig "plugin") ≠ MetricTypeCounter)
    as Hnc by (simpl; discriminate).
  assert (¬ isGaugeKind (metricType (pluginOf summaryConfig "plugin")))
    as Hng by (intros [Hk|Hk]; simpl in Hk; discriminate).
  split_and!; [exact Hnc | exact Hng | exact summaryExchange_reachable |].
  exact (unknown_kind_stays_zero _ _ Hnc Hng summaryExchange_reachable
           _ _ summaryExchange_lookup).
Defined.

(** The scenario of the gauge, observed twice. *)
Lemma gauge_observe_idempotent_witness :
  isGaugeKind (metricType sizeGauge) ∧
  observe sizeGauge (observe sizeGauge ∅ sizeExchange) sizeExchange
  = observe sizeGauge ∅ sizeExchange.
Proof.
  split; [exact sizeGauge_kind|].
  exact (gauge_observe_idempotent sizeGauge ∅ sizeExchange sizeGauge_kind).
Defined.

Lemma test_keys_differ :
  keyOfExchange testCounter exchangeConfigured
  ≠ keyOfExchange testCounter exchangeSwapped.
Proof. vm_compute. discriminate. Qed.

(** The two exchanges of the test that are filed under two keys. *)
Lemma observe_commutes_witness :
  keyOfExchange testCounter exchangeConfigured
  ≠ keyOfExchange testCounter exchangeSwapped ∧
  observe testCounter (observe testCounter ∅ exchangeConfigured)
    exchangeSwapped
  = observe testCounter (observe testCounter ∅ exchangeSwapped)
      exchangeConfigured.
Proof.
  split; [exact test_keys_differ|].
  exact (observe_commutes testCounter ∅ exchangeConfigured exchangeSwapped
           test_keys_differ).
Defined.

Lemma pairExchange_labels_a :
  exchangeLabels pairCounter (pairExchange "1" "2_b_3")
  = {[ "a" := "1"; "b" := "2" +:+ "_" +:+ "b" +:+ "_" +:+ "3" ]}.
Proof. vm_reflexivity. Qed.

Lemma pairExchange_labels_b :
  exchangeLabels pairCounter (pairExchange "1_b_2" "3")
  = {[ "a" := "1" +:+ "_" +:+ "b" +:+ "_" +:+ "2"; "b" := "3" ]}.
Proof. vm_reflexivity. Qed.

(** [a = 1], [b = 2_b_3] and [a = 1_b_2], [b = 3] under the key
    [m_a_1_b_2_b_3]. *)
Lemma key_collision_witness :
  "a" ≠ "b" ∧
  exchangeLabels pairCounter (pairExchange "1" "2_b_3")
  ≠ exchangeLabels pairCounter (pairExchange "1_b_2" "3") ∧
  keyOfExchange pairCounter (pairExchange "1" "2_b_3")
  = keyOfExchange pairCounter (pairExchange "1_b_2" "3") ∧
  size (run pairCounter
          [pairExchange "1" "2_b_3"; pairExchange "1_b_2" "3"] ∅) = 1 ∧
  Labels <$> run pairCounter
               [pairExchange "1" "2_b_3"; pairExchange "1_b_2" "3"] ∅
             !! keyOfExchange pairCounter (pairExchange "1_b_2" "3")
  = Some (exchangeLabels pairCounter (pairExchange "1" "2_b_3")).
Proof.
  assert ("a" ≠ "b") as Hne by discriminate.
  split; [exact Hne|].
  exact (key_collision pairCounter "a" "b" "1" "2" "3"
           (pairExchange "1" "2_b_3") (pairExchange "1_b_2" "3")
           Hne eq_refl eq_refl pairExchange_labels_a pairExchange_labels_b).
Defined.

Lemma responseHandler_writes : Forall isWriteOp [OpWriteHeader 200].
Proof. by repeat constructor. Qed.

Lemma responseCounter_header :
  "X-Response-ID" ∈ metricHeaders responseCounter.
Proof. by left. Qed.

(** The third scenario of the specification: the header is set on the
    response only. *)
Lemma ServeHTTP_collects_after_handler_witness :
  Forall isWriteOp [OpWriteHeader 200] ∧
  "X-Response-ID" ∈ metricHeaders responseCounter ∧
  Get (∅ : Header) "X-Response-ID" = "" ∧
  collectLabels responseCounter ∅
    (recHeader
       (ServeHTTP responseCounter responseHandler ["X-Response-ID"]
          {| recHeader := ∅; recCalls := [] |} ∅ ∅).1)
    !! "X-Response-ID"
  = Some "resp123".
Proof.
  assert (Get (∅ : Header) "X-Response-ID" = "") as Hreq by vm_reflexivity.
  split_and!;
    [exact responseHandler_writes | exact responseCounter_header
     | exact Hreq |].
  exact (proj2 (proj2 (ServeHTTP_collects_after_handler responseCounter
                         responseHandler ["X-Response-ID"]
                         {| recHeader := ∅; recCalls := [] |} ∅ ∅))
           [] "X-Response-ID" "resp123" [OpWriteHeader 200] eq_refl
           responseHandler_writes responseCounter_header Hreq).
Defined.

(** [Stop] at its receive. *)
Lemma Stop_never_returns_witness :
  EvListenerError ∉ [EvStop] ∧
  lifecycleRun lifecycleStart [EvStop]
  = Some {| stopPc := StopWaiting; servePc := Serving;
            serverStopClosed := true; serverStoppedClosed := false;
            serverClosed := false |} ∧
  servePc {| stopPc := StopWaiting; servePc := Serving;
             serverStopClosed := true; serverStoppedClosed := false;
             serverClosed := false |} = Serving.
Proof.
  assert (EvListenerError ∉ [EvStop]) as Hevs.
  { intros Hin. inversion Hin as [|? ? ? Hnil]; subst. inversion Hnil. }
  split_and!; [exact Hevs | reflexivity |].
  exact (proj1 (proj2 (proj1 Stop_never_returns [EvStop] _ Hevs eq_refl))).
Defined.

Lemma onlyConfig_New :
  SingleSeries.New (λ _, true) onlyConfig "test-plugin"
  = inr (pluginOf onlyConfig "test-plugin",
         {[ "test_counter" := singleMetric
                                (pluginOf onlyConfig "test-plugin") 0 ]}).
Proof. reflexivity. Qed.

Lemma onlyGaugeConfig_New :
  SingleSeries.New (λ _, true) onlyGaugeConfig "gauge-plugin"
  = inr (pluginOf onlyGaugeConfig "gauge-plugin",
         {[ "g" := singleMetric (pluginOf onlyGaugeConfig "gauge-plugin") 0 ]}).
Proof. reflexivity. Qed.

(** The plugin of [TestMetricsOnly] in the single-series variant, after the
    request of the test and a request without headers. *)
Lemma single_series_one_metric_witness :
  SingleSeries.New (λ _, true) onlyConfig "test-plugin"
  = inr (pluginOf onlyConfig "test-plugin",
         {[ "test_counter" := singleMetric
                                (pluginOf onlyConfig "test-plugin") 0 ]}) ∧
  ∃ v,
    SingleSeriesRun.run (pluginOf onlyConfig "test-plugin") [testRequest; ∅]
      {[ "test_counter" := singleMetric
                             (pluginOf onlyConfig "test-plugin") 0 ]}
    = {[ "test_counter" := singleMetric
                             (pluginOf onlyConfig "test-plugin") v ]}.
Proof.
  split; [exact onlyConfig_New|].
  destruct (single_series_one_metric (λ _, true) onlyConfig "test-plugin"
              _ _ [testRequest; ∅] onlyConfig_New) as (v & Hrun & _).
  exists v. exact Hrun.
Defined.

Lemma testConfig_New :
  SingleSeries.New (λ _, true) testConfig "metrics-plugin"
  = inr (pluginOf testConfig "metrics-plugin",
         {[ "test_counter" := singleMetric
                                (pluginOf testConfig "metrics-plugin") 0 ]}).
Proof. reflexivity. Qed.

(** The plugin of [TestMetrics] in the single-series variant: a request with
    both headers, one with the second alone, one with none and one with the
    first alone. *)
Lemma single_series_counts_requests_witness :
  SingleSeries.New (λ _, true) testConfig "metrics-plugin"
  = inr (pluginOf testConfig "metrics-plugin",
         {[ "test_counter" := singleMetric
                                (pluginOf testConfig "metrics-plugin") 0 ]}) ∧
  metricType (pluginOf testConfig "metrics-plugin") = MetricTypeCounter ∧
  withHeaderSet (pluginOf testConfig "metrics-plugin")
    [testRequest; sizeOnlyRequest; ∅; userOnlyRequest]
  = [testRequest; sizeOnlyRequest; userOnlyRequest] ∧
  Value <$> SingleSeriesRun.run (pluginOf testConfig "metrics-plugin")
              [testRequest; sizeOnlyRequest; ∅; userOnlyRequest]
              {[ "test_counter" := singleMetric
                                     (pluginOf testConfig "metrics-plugin") 0 ]}
            !! "test_counter"
  = Some 3%float.
Proof.
  split_and!; [exact testConfig_New | reflexivity | vm_reflexivity |].
  pose proof (single_series_counts_requests (λ _, true) testConfig
                "metrics-plugin" _ _
                [testRequest; sizeOnlyRequest; ∅; userOnlyRequest]
                testConfig_New eq_refl) as Hvalue.
  vm_compute in Hvalue. vm_compute. exact Hvalue.
Defined.

Lemma onlyGauge_kind :
  isGaugeKind (metricType (pluginOf onlyGaugeConfig "gauge-plugin")).
Proof. by left. Qed.

Lemma single_series_last_request_witness :
  SingleSeries.New (λ _, true) onlyGaugeConfig "gauge-plugin"
  = inr (pluginOf onlyGaugeConfig "gauge-plugin",
         {[ "g" := singleMetric
                     (pluginOf onlyGaugeConfig "gauge-plugin") 0 ]}) ∧
  isGaugeKind (metricType (pluginOf onlyGaugeConfig "gauge-plugin")) ∧
  Value <$> SingleSeriesRun.run (pluginOf onlyGaugeConfig "gauge-plugin")
              [sizeRequest; ∅]
              {[ "g" := singleMetric
                          (pluginOf onlyGaugeConfig "gauge-plugin") 0 ]}
            !! "g"
  = Some 1%float.
Proof.
  split_and!; [exact onlyGaugeConfig_New | exact onlyGauge_kind |].
  pose proof (single_series_last_request (λ _, true) onlyGaugeConfig
                "gauge-plugin" _ _ [sizeRequest; ∅]
                onlyGaugeConfig_New onlyGauge_kind) as Hvalue.
  vm_compute in Hvalue. vm_compute. exact Hvalue.
Defined.

Lemma userExchanges_ok :
  Forall (exchange_ok userCounter)
    [userExchange "user123"; userExchange "user123"; userExchange "user456"].
Proof.
  assert (∀ user, exchange_ok userCounter (userExchange user)) as Hok.
  { intros user. unfold exchange_ok. range_order_by_computation. }
  repeat (apply Forall_cons; split; [apply Hok|]). apply Forall_nil_2.
Qed.

(** The first scenario of the specification: [user123] twice and [user456]
    once. *)
Lemma single_header_counts_by_value_witness :
  metricHeaders userCounter = ["X-User-ID"] ∧
  metricType userCounter = MetricTypeCounter ∧
  Forall (exchange_ok userCounter)
    [userExchange "user123"; userExchange "user123"; userExchange "user456"] ∧
  Value <$> run userCounter
              [userExchange "user123"; userExchange "user123";
               userExchange "user456"] ∅
            !! "c_X-User-ID_user123"
  = Some 2%float.
Proof.
  split_and!; [reflexivity | reflexivity | exact userExchanges_ok |].
  pose proof (single_header_counts_by_value userCounter "X-User-ID" "user123"
                _ eq_refl eq_refl userExchanges_ok) as Hvalue.
  vm_compute in Hvalue. vm_compute. exact Hvalue.
Defined.
